(** * Studio-Photo: request orchestration of [services/geminiService.ts]

    A shallow embedding of the serial request queue, the retry policy,
    the prompt assembly of the six operations and their response
    handling, together with the properties the design document states
    about them.

    Conventions of the embedding.
    - A JavaScript string is a [string]; every character stands for one
      code unit below 256.
    - A thrown value is a [thrown]; a function that can throw returns a
      [result].
    - Values handed back by [JSON.parse] are [jsval]s; the parser itself
      belongs to the runtime and is a parameter of the functions that
      call it.
    - Integer-valued numbers (slider positions, attempt counters,
      milliseconds) are [Z] or [nat]; the exposure value, on which
      [toFixed] is called, is the exact rational value of the double. *)

From Stdlib Require Import String Ascii List Bool Arith ZArith QArith Qround Lia.
From Stdlib Require Import DecimalString Lqa.
Import ListNotations.

Set Implicit Arguments.
Set Warnings "-register-all".

(* ===================================================================== *)
(** ** JavaScript strings and values *)
(* ===================================================================== *)

Module Js.

Local Open Scope string_scope.

(** The double quote and the line feed, which the source writes inside
    its template literals. *)
Definition dq : string := String "034"%char EmptyString.
Definition nl : string := String "010"%char EmptyString.

(** [String.prototype.includes]. *)
Fixpoint includes (s sub : string) : bool :=
  if String.prefix sub s then true
  else match s with
       | EmptyString => false
       | String _ s' => includes s' sub
       end.

(** [Array.prototype.join]. *)
Fixpoint join (sep : string) (l : list string) : string :=
  match l with
  | [] => ""
  | [x] => x
  | x :: rest => x ++ sep ++ join sep rest
  end.

(** Truthiness of a string: non-empty. *)
Definition nonEmpty (s : string) : bool :=
  match s with EmptyString => false | _ => true end.

(** [`${n}`] for an integer-valued number. *)
Definition showZ (n : Z) : string := NilZero.string_of_int (Z.to_int n).

(** [String.prototype.toLowerCase] on the ASCII letters. *)
Definition lowerChar (c : ascii) : ascii :=
  let n := nat_of_ascii c in
  if andb (65 <=? n)%nat (n <=? 90)%nat then ascii_of_nat (n + 32) else c.

Fixpoint toLowerCase (s : string) : string :=
  match s with
  | EmptyString => EmptyString
  | String c s' => String (lowerChar c) (toLowerCase s')
  end.

(** Values produced by [JSON.parse]. An object is the list of its own
    properties; an array has its elements and, once one is assigned,
    named properties of its own. A number is the exact value of the
    double. *)
Inductive jsval : Type :=
| JNull
| JBool (b : bool)
| JNum (q : Q)
| JStr (s : string)
| JArr (elems : list jsval) (named : list (string * jsval))
| JObj (props : list (string * jsval)).

Fixpoint assoc (k : string) (props : list (string * jsval)) : option jsval :=
  match props with
  | [] => None
  | (k', v) :: rest => if String.eqb k k' then Some v else assoc k rest
  end.

(** [v.k] for a property name [k] that is neither an index nor built in
    and a value [v] other than [null]; [None] is [undefined]. *)
Definition getProp (v : jsval) (k : string) : option jsval :=
  match v with
  | JObj props => assoc k props
  | JArr _ named => assoc k named
  | _ => None
  end.

(** [o.k = x] on an object: replaces the property or adds it. *)
Fixpoint setAssoc (k : string) (x : jsval) (props : list (string * jsval))
  : list (string * jsval) :=
  match props with
  | [] => [(k, x)]
  | (k', v) :: rest =>
      if String.eqb k k' then (k', x) :: rest else (k', v) :: setAssoc k x rest
  end.

Definition truthy (v : jsval) : bool :=
  match v with
  | JNull => false
  | JBool b => b
  | JNum q => negb (Qeq_bool q 0)
  | JStr s => nonEmpty s
  | JArr _ _ | JObj _ => true
  end.

(** Thrown values: an [Error] with its message, or any other value, of
    which only [String(e)] is ever used. *)
Inductive thrown : Type :=
| ErrorObj (message : string)
| ThrownValue (asString : string).

(** [e instanceof Error ? e.message : String(e)]. *)
Definition messageOf (e : thrown) : string :=
  match e with
  | ErrorObj m => m
  | ThrownValue str => str
  end.

Inductive result (A : Type) : Type :=
| Ok (a : A)
| Throw (e : thrown).
Arguments Ok {A} a.
Arguments Throw {A} e.

End Js.

(* ===================================================================== *)
(** ** Retry policy: [withRetry] *)
(* ===================================================================== *)

Module Retry.
Import Js.
Local Open Scope string_scope.

(** In the code units modelled here the line terminators, which the dot
    of a regular expression does not match, are the line feed and the
    carriage return. *)
Definition isLineTerminator (c : ascii) : bool :=
  orb (Ascii.eqb c "010"%char) (Ascii.eqb c "013"%char).

(** The longest prefix of [s] that stays on one line and ends with a
    closing brace: what [.*}] matches at the start of [s]. *)
Fixpoint greedyToBrace (s : string) : option string :=
  match s with
  | EmptyString => None
  | String c rest =>
      if isLineTerminator c then None
      else match greedyToBrace rest with
           | Some t => Some (String c t)
           | None => if Ascii.eqb c "}"%char then Some "}" else None
           end
  end.

(** [message.match(/{.*}/)]: the match at the leftmost opening brace
    that has one, or [None] for [null]. *)
Fixpoint matchBraces (s : string) : option string :=
  match s with
  | EmptyString => None
  | String c rest =>
      if Ascii.eqb c "{"%char then
        match greedyToBrace rest with
        | Some t => Some (String c t)
        | None => matchBraces rest
        end
      else matchBraces rest
  end.

Definition isNum429 (v : option jsval) : bool :=
  match v with
  | Some (JNum q) => Qeq_bool q 429
  | _ => false
  end.

Definition isStrResourceExhausted (v : option jsval) : bool :=
  match v with
  | Some (JStr s) => String.eqb s "RESOURCE_EXHAUSTED"
  | _ => false
  end.

Section WithRuntime.

(** [JSON.parse], which returns a value or throws. *)
Variable JSON_parse : string -> result jsval.

(** The structured check inside the inner [try]: the embedded JSON body
    carries [error.code === 429] or
    [error.status === 'RESOURCE_EXHAUSTED']. *)
Definition structuredRateLimit (message : string) : bool :=
  match matchBraces message with
  | None => false
  | Some json =>
      match JSON_parse json with
      | Throw _ => false
      | Ok errorBody =>
          match getProp errorBody "error" with
          | None => false
          | Some err =>
              andb (truthy err)
                   (orb (isNum429 (getProp err "code"))
                        (isStrResourceExhausted (getProp err "status")))
          end
      end
  end.

(** The substring fallback. *)
Definition substringRateLimit (message : string) : bool :=
  orb (includes message "429")
      (orb (includes message "RESOURCE_EXHAUSTED")
           (includes message "rate limit")).

(** The value of [isRateLimitError] at the end of the [catch] block. *)
Definition isRateLimitError (e : thrown) : bool :=
  match e with
  | ErrorObj message =>
      orb (structuredRateLimit message) (substringRateLimit message)
  | ThrownValue _ => false
  end.

Definition unavailableMessage : string :=
  "The AI service is temporarily unavailable due to high demand. Please try again in a few moments. (Rate limit exceeded)".

Definition unknownMessage : string :=
  "An unknown error occurred after multiple retries.".

(** What one run of [withRetry] does, in order. *)
Inductive action : Type :=
| Call (attempt : nat)
| Sleep (ms : Q).

(** [initialDelay * (backoffFactor ** attempt) + jitter], the value of
    the expression as a number; the rounding of the sum to a double is
    not part of it. *)
Definition backoffDelay (initialDelay backoffFactor : Q) (attempt : nat)
  (jitter : Q) : Q :=
  initialDelay * (backoffFactor ^ Z.of_nat attempt) + jitter.

Section Loop.

Variable T : Type.
(** The outcome of the invocation of [apiCall] made by each attempt. *)
Variable apiCall : nat -> result T.
(** The value [Math.random() * 1000] drawn after each failed attempt. *)
Variable jitter : nat -> Q.
Variable maxRetries : nat.
Variables initialDelay backoffFactor : Q.

(** The [for] loop from [attempt] on, with [remaining] iterations left
    before [attempt < maxRetries] fails. *)
Fixpoint retryLoop (remaining attempt : nat) (lastError : option thrown)
  : list action * result T :=
  match remaining with
  | O =>
      ([], Throw (match lastError with
                  | Some e => e
                  | None => ErrorObj unknownMessage
                  end))
  | S remaining' =>
      match apiCall attempt with
      | Ok v => ([Call attempt], Ok v)
      | Throw e =>
          if isRateLimitError e then
            if Nat.eqb attempt (maxRetries - 1) then
              ([Call attempt], Throw (ErrorObj unavailableMessage))
            else
              let d := backoffDelay initialDelay backoffFactor attempt
                         (jitter attempt) in
              let (acts, r) := retryLoop remaining' (S attempt) (Some e) in
              (Call attempt :: Sleep d :: acts, r)
          else ([Call attempt], Throw e)
      end
  end.

Definition withRetry : list action * result T :=
  retryLoop maxRetries 0 None.

End Loop.

(** A settlement that the loop answers with another attempt, as long
    as one is left. *)
Definition rateLimited (T : Type) (r : result T) : bool :=
  match r with
  | Throw e => isRateLimitError e
  | Ok _ => false
  end.

(** What [k] attempts that are each followed by a back-off leave in the
    run, starting with the attempt [from]. *)
Definition retriedFrom (jitter : nat -> Q) (initialDelay backoffFactor : Q)
  (from k : nat) : list action :=
  flat_map
    (fun i => [Call i;
               Sleep (backoffDelay initialDelay backoffFactor i (jitter i))])
    (seq from k).

(** The number of invocations of the wrapped call in a run. *)
Definition calls (acts : list action) : nat :=
  length (filter (fun a => match a with Call _ => true | _ => false end) acts).

Definition sleeps (acts : list action) : nat :=
  length (filter (fun a => match a with Sleep _ => true | _ => false end) acts).

(** The reading of "not a rate-limit error" in the design document: no
    429 code and no RESOURCE_EXHAUSTED marker, structured or as a
    substring. *)
Definition documentedNotRateLimit (e : thrown) : bool :=
  match e with
  | ErrorObj message =>
      negb (orb (structuredRateLimit message)
                (orb (includes message "429")
                     (includes message "RESOURCE_EXHAUSTED")))
  | ThrownValue _ => true
  end.

End WithRuntime.

(** A [JSON.parse] that rejects every text; messages without braces
    never reach the parser. *)
Definition rejectingParser (json : string) : result jsval :=
  Throw (ErrorObj ("Unexpected token in JSON: " ++ json)).

End Retry.

(* ===================================================================== *)
(** ** Serial request queue: [requestQueue], [processQueue], [enqueue] *)
(* ===================================================================== *)

Module Queue.
Local Open Scope nat_scope.

(** A task is identified by the position of its [enqueue] call among all
    calls; its unit of work is the promise [apiCall()] it awaits, which
    for every operation is [withRetry(apiCall)] as a whole. *)
Definition task := nat.

Inductive mark : Type :=
| Started (t : task)    (** [apiCall()] is invoked *)
| Settled (t : task).   (** the awaited promise resolved or rejected *)

(** The two module variables, and what the event loop holds for them:
    the units of work whose promise is pending, the due times of the
    pending [setTimeout(processQueue, 1000)] calls, the current time in
    milliseconds, and a chronological journal. *)
Record state : Type := mkState {
  requestQueue : list task;
  isProcessing : bool;
  inFlight : list task;
  timers : list N;
  clock : N;
  submitted : nat;
  journal : list (N * mark)
}.

Definition initial : state :=
  mkState [] false [] [] 0%N 0 [].

Definition coolDown : N := 1000%N.

(** [processQueue()]. Calling [nextTask()] runs the task up to its
    [await], that is, it invokes [apiCall()]. *)
Definition processQueue (s : state) : state :=
  if orb (isProcessing s) (Nat.eqb (length (requestQueue s)) 0) then s
  else
    match requestQueue s with
    | [] =>
        mkState [] true (inFlight s) (timers s) (clock s) (submitted s)
          (journal s)
    | nextTask :: rest =>
        mkState rest true (inFlight s ++ [nextTask]) (timers s) (clock s)
          (submitted s) (journal s ++ [(clock s, Started nextTask)])
    end.

(** The body of the promise executor of [enqueue]: push, then
    [processQueue()]. *)
Definition enqueue (s : state) : state :=
  processQueue
    (mkState (requestQueue s ++ [submitted s]) (isProcessing s) (inFlight s)
       (timers s) (clock s) (S (submitted s)) (journal s)).

(** The rest of a task once its awaited promise has settled: [resolve]
    or [reject], then the [finally] block. *)
Definition afterAwait (t : task) (s : state) : state :=
  mkState (requestQueue s) false
    (List.remove Nat.eq_dec t (inFlight s))
    (timers s ++ [(clock s + coolDown)%N]) (clock s) (submitted s)
    (journal s ++ [(clock s, Settled t)]).

Definition advance (now : N) (s : state) : state :=
  mkState (requestQueue s) (isProcessing s) (inFlight s) (timers s) now
    (submitted s) (journal s).

(** What the event loop can run next, with the time at which it does. *)
Inductive event : Type :=
| Enqueue (now : N)               (** a caller invokes [enqueue] *)
| Settle (now : N) (t : task)     (** the unit of work of [t] settles *)
| Timer (now : N).                (** the oldest pending timer fires *)

Definition memb (t : task) (l : list task) : bool :=
  existsb (Nat.eqb t) l.

(** One turn of the event loop; [None] when the event cannot happen:
    time does not go back, only a pending unit of work settles, a timer
    does not fire before it is due. *)
Definition step (s : state) (e : event) : option state :=
  match e with
  | Enqueue now =>
      if (clock s <=? now)%N then Some (enqueue (advance now s)) else None
  | Settle now t =>
      if andb (clock s <=? now)%N (memb t (inFlight s))
      then Some (afterAwait t (advance now s)) else None
  | Timer now =>
      match timers s with
      | due :: rest =>
          if andb (clock s <=? now)%N (due <=? now)%N then
            Some (processQueue
                    (mkState (requestQueue s) (isProcessing s) (inFlight s)
                       rest now (submitted s) (journal s)))
          else None
      | [] => None
      end
  end.

Fixpoint run (s : state) (es : list event) : option state :=
  match es with
  | [] => Some s
  | e :: rest =>
      match step s e with
      | Some s' => run s' rest
      | None => None
      end
  end.

(** The order of events, without their times. *)
Definition marks (s : state) : list mark := map snd (journal s).

(** The journal of a queue that ran the first [k] tasks one after the
    other. *)
Definition serial (k : nat) : list mark :=
  flat_map (fun t => [Started t; Settled t]) (seq 0 k).

(** The cool-down as the design document states it: a unit of work
    starts no earlier than [coolDown] after the settlement before it. *)
Fixpoint coolDownKept (j : list (N * mark)) : bool :=
  match j with
  | [] => true
  | (settledAt, Settled _) :: rest =>
      match rest with
      | (startedAt, Started _) :: _ =>
          andb (settledAt + coolDown <=? startedAt)%N (coolDownKept rest)
      | _ => coolDownKept rest
      end
  | _ :: rest => coolDownKept rest
  end.

(** How many units of work a journal starts and how many it settles. *)
Definition starts (l : list mark) : nat :=
  length (filter (fun m => match m with Started _ => true | _ => false end) l).

Definition settlements (l : list mark) : nat :=
  length (filter (fun m => match m with Settled _ => true | _ => false end) l).

(** The first task not yet settled and whether it is running determine
    the journal, the pending units of work and the queue. *)
Record invariant (k : nat) (s : state) : Prop := {
  inv_marks :
    marks s = serial k ++ (if isProcessing s then [Started k] else []);
  inv_inFlight :
    inFlight s = (if isProcessing s then [k] else []);
  inv_queue :
    requestQueue s
    = seq (if isProcessing s then S k else k) (length (requestQueue s));
  inv_submitted :
    submitted s
    = (if isProcessing s then S k else k) + length (requestQueue s)
}.

End Queue.

(* ===================================================================== *)
(** ** Prompt assembly: the [parts] of the six operations *)
(* ===================================================================== *)

Module Prompt.
Import Js.
Local Open Scope string_scope.

Record ImageFile : Type := mkImageFile {
  base64 : string;
  mimeType : string;
  previewUrl : string
}.

(** A content block of a request: [{ text }] or [{ inlineData }]. *)
Inductive Part : Type :=
| TextPart (text : string)
| InlineDataPart (data : string) (mime : string).

Definition fileToGenerativePart (file : ImageFile) : Part :=
  InlineDataPart (base64 file) (mimeType file).

(** The union types of [types.ts] are strings at run time. *)
Record GenerateStudioPhotoParams : Type := mkParams {
  sourceImage : ImageFile;
  subjectMode : string;
  subjectPrompt : string;
  faceReferenceImage : option ImageFile;
  dressImage : option ImageFile;
  dressPrompt : string;
  objectImage : option ImageFile;
  backgroundImage : option ImageFile;
  backgroundPrompt : string;
  backgroundMode : string;
  stylePrompt : string;
  artReferenceImage : option ImageFile;
  artReferencePrompt : string;
  artStyleInfluence : Z;
  subjectInfluence : Z;
  surprise : Z;
  integrationAnalysis : string;
  lightingStyle : string;
  perspectiveDistance : string;
  perspectiveAngle : string;
  perspectivePOV : string;
  perspectiveMovement : string;
  perspectiveLens : string;
  useArtReferenceLighting : bool;
  useArtReferenceSkin : bool;
  flyerText : string;
  thumbnailText : string;
  skinTexture : string;
  highlightStyle : string;
  highlightIntensity : string;
  aperture : string;
  shutterSpeed : string;
  iso : string;
  focusMode : string;
  manualFocusSubject : string;
  exposure : Q;
  lensType : string;
  shootingMode : string;
  lightingTemperature : Z
}.

Definition present (A : Type) (o : option A) : bool :=
  match o with Some _ => true | None => false end.

(** [x && x !== 'None'] for a string [x]. *)
Definition chosen (x : string) : bool :=
  andb (nonEmpty x) (negb (String.eqb x "None")).

(** [Number.prototype.toFixed(1)]: the nearest multiple of one tenth,
    the larger one on a tie, after the sign has been split off.  This
    is the fixed notation, which [toFixed] prints for a value below
    10^21; from there on it prints the exponent notation of [toString],
    which is outside this definition. *)
Definition toFixed1 (x : Q) : string :=
  let neg := negb (Qle_bool (0 # 1) x) in
  let a := if neg then Qopp x else x in
  let n := Qfloor (Qplus (Qmult a (10 # 1)) (1 # 2)) in
  (if neg then "-" else "") ++ showZ (Z.div n 10) ++ "." ++
  showZ (Z.modulo n 10).

Section Composite.

Variable p : GenerateStudioPhotoParams.

Definition isFlyerDesign : bool := includes (stylePrompt p) "Flyer Design".
Definition isThumbnailDesign : bool :=
  includes (stylePrompt p) "Thumbnail Design".

Definition flyerInstructions : string :=
  "You are an expert graphic designer creating a professional " ++
  "promotional flyer." ++ nl ++ "- **Primary Task:** Your main goal is " ++
  "to create a visually appealing flyer." ++ nl ++ "- **Subject " ++
  "Integration:** The provided image contains the main subject(s). You " ++
  "MUST perfectly preserve their identity and creatively integrate " ++
  "them into the flyer design." ++ nl ++ "- **Text Content:** The " ++
  "flyer MUST include the following text. Find a creative and legible " ++
  "way to display it: " ++ dq ++ flyerText p ++ dq ++ "." ++ nl ++
  "- **Style:** The overall style should be professional, modern, and " ++
  "eye-catching." ++ nl ++ "- **Output:** The final image MUST be a " ++
  "cohesive, high-quality flyer. This is a critical instruction.".

Definition thumbnailInstructions : string :=
  "You are a professional YouTube thumbnail designer. Your goal is to " ++
  "create a compelling, high-energy, clickable thumbnail." ++ nl ++
  "- **Primary Task:** Create an engaging thumbnail that grabs " ++
  "attention." ++ nl ++ "- **Subject Integration:** The provided image " ++
  "is the main subject(s). You MUST preserve their identity and make " ++
  "them the focal point of the thumbnail." ++ nl ++
  "- **Text Content:** The thumbnail MUST include this text, making it " ++
  "bold, readable, and exciting: " ++ dq ++ thumbnailText p ++ dq ++ "." ++
  nl ++ "- **Style:** The design should be eye-catching, " ++
  "high-contrast, and follow modern social media trends." ++ nl ++
  "- **Output:** The final image must be a high-quality thumbnail. " ++
  "This is a critical instruction.".

Definition subjectNoun : string :=
  if String.eqb (subjectMode p) "single" then "person" else "person(s)".

Definition subjectNounPlural : string :=
  if String.eqb (subjectMode p) "single" then "subject" else "subjects".

Definition masterPrompt : string :=
  "You are an expert AI photo editor and virtual photographer. Your " ++
  "goal is to create a single, high-quality image based on a set of " ++
  "input images and text instructions. You will be provided with " ++
  "images labeled like [Subject], [Art Style], etc. You must use these " ++
  "labels to understand which image to use for which purpose.".

(** The directive of the subject section when an art reference is
    present. *)
Definition subjectInfluenceDirective : string :=
  "- **CRITICAL - SUBJECT INFLUENCE " ++ showZ (subjectInfluence p) ++
  "/100:** You MUST retain the subject's identity. A value of 100 " ++
  "requires a perfect, photorealistic match to the original " ++
  subjectNoun ++ ". A lower value allows for more artistic " ++
  "interpretation of their features to better match the art style, " ++
  "while still ensuring the " ++ subjectNoun ++ " is/are recognizable. " ++
  "This is your most important instruction.".

(** The directive of the subject section when there is none. *)
Definition preserveIdentityDirective : string :=
  "- **CRITICAL:** You MUST perfectly preserve their facial features, " ++
  "structure, and identity. The final image must be unmistakably the " ++
  "same " ++ subjectNoun ++ ".".

(** [.filter(Boolean)] on an array of strings and [null]s. *)
Definition filterBoolean (l : list (option string)) : list string :=
  flat_map (fun o => match o with
                     | Some s => if nonEmpty s then [s] else []
                     | None => []
                     end) l.

Definition subjectInstructions : string :=
  join nl (filterBoolean
    [ Some (nl ++ "**1. SUBJECT & IDENTITY (PARAMOUNT PRIORITY)**");
      Some ("- The " ++ subjectNoun ++ " in the [Subject] image is/are " ++
            "your primary subject.");
      Some (if present (artReferenceImage p) then subjectInfluenceDirective
            else preserveIdentityDirective);
      (if nonEmpty (subjectPrompt p) then
         Some ("- Apply these modifications to the " ++ subjectNounPlural ++
               ", while maintaining their identity: " ++ dq ++
               subjectPrompt p ++ dq ++ ".")
       else None);
      (if present (faceReferenceImage p) then
         Some ("- **CRITICAL FACE OVERRIDE:** The [Face Reference] " ++
               "image provides the definitive likeness of the subject. " ++
               "Use this image to ensure the face is a perfect match, " ++
               "overriding the face from the [Subject] image if necessary.")
       else None) ]).

Definition artStylePrompts : list string :=
  [ nl ++ "**2. ART STYLE APPLICATION**";
    "- Analyze the [Art Style] image. Your task is to re-imagine the " ++
    "subject(s) in this distinct artistic style.";
    (if nonEmpty (artReferencePrompt p) then
       "- The style is described as: " ++ dq ++ artReferencePrompt p ++
       dq ++ "."
     else "");
    "- **Style Influence:** Apply the reference style with an " ++
    "influence level of **" ++ showZ (artStyleInfluence p) ++
    "/100**. A value of 100 means a complete transformation into the " ++
    "reference style, while still preserving the subject's " ++
    "recognizable identity.";
    "- **Creative Freedom (Surprise):** You have a creative freedom " ++
    "level of **" ++ showZ (surprise p) ++ "/100**. A value of 0 means " ++
    "strict adherence to instructions; 100 grants maximum artistic liberty.";
    (if nonEmpty (integrationAnalysis p) then
       "- **Execution Plan:** Follow this user-approved plan: " ++ dq ++
       integrationAnalysis p ++ dq
     else "") ]
  ++ (if useArtReferenceSkin p then
        [ "- **CRITICAL - SKIN & HIGHLIGHT MATCH:** Analyze the skin " ++
          "texture and highlights on the person in the [Art Style] " ++
          "image. Apply this exact skin finish to the main subject(s), " ++
          "but **you MUST preserve the subject's original skin tone " ++
          "and color**. This is a texture/finish matching instruction only." ]
      else [])
  ++ (if useArtReferenceLighting p then
        [ "- **CRITICAL - LIGHTING MATCH:** Apply the lighting from " ++
          "the [Art Style] image (color, shadows, direction) perfectly " ++
          "to the subject(s)." ]
      else [])
  ++ [ "- **IMPORTANT:** DO NOT simply copy or output the [Art Style] " ++
       "image. The final image must be a **new creation** that " ++
       "**fuses** the subject(s) from the [Subject] image with the " ++
       "style of the [Art Style] image." ].

Definition artStyleSection : list string :=
  if present (artReferenceImage p) then
    [ join nl (filter nonEmpty artStylePrompts) ]
  else [].

Definition compoInstructions : list string :=
  (if present (dressImage p) then
     [ nl ++ "**Outfit:**" ++ nl ++ "- From the [Outfit] image, you " ++
       "must extract **ONLY THE CLOTHING/OUTFIT**." ++ nl ++
       "- **STRICTLY IGNORE EVERYTHING ELSE** in the [Outfit] image: " ++
       "the person, the background, the pose, accessories, etc. Your " ++
       "only focus is the **GARMENT** itself." ++ nl ++
       "- Apply this extracted outfit naturally onto the main subject(s)." ]
     ++ (if nonEmpty (dressPrompt p) then
           [ "- Apply these modifications to the outfit: " ++ dq ++
             dressPrompt p ++ dq ++ "." ]
         else [])
   else [])
  ++ (if present (objectImage p) then
        [ nl ++ "**Object:**" ++ nl ++ "- From the [Object] image, " ++
          "identify any non-clothing objects and incorporate them " ++
          "naturally into the scene with the subject(s)." ]
      else [])
  ++ (if andb (String.eqb (backgroundMode p) "upload")
              (present (backgroundImage p)) then
        [ nl ++ "**Background:**" ++ nl ++ "- Use the [Background] " ++
          "image as the new background." ]
        ++ (if nonEmpty (backgroundPrompt p) then
              [ "- Apply these modifications to the background: " ++ dq ++
                backgroundPrompt p ++ dq ++ "." ]
            else [])
      else if andb (String.eqb (backgroundMode p) "describe")
                   (nonEmpty (backgroundPrompt p)) then
        [ nl ++ "**Background:**" ++ nl ++ "- Create a new background " ++
          "based on this description: " ++ dq ++ backgroundPrompt p ++ dq ++
          "." ]
      else if String.eqb (backgroundMode p) "random" then
        [ nl ++ "**Background:**" ++ nl ++ "- Generate a random, " ++
          "photorealistic, professional studio background that " ++
          "complements the subject(s)." ]
      else []).

Definition compositionSection : list string :=
  if Nat.ltb 0 (length compoInstructions) then
    [ (nl ++ "**3. COMPOSITION & SCENE**") ++ join nl compoInstructions ]
  else [].

Definition finalTouches : list string :=
  (if andb (chosen (lightingStyle p)) (negb (useArtReferenceLighting p)) then
     [ "- **CRITICAL LIGHTING:** Apply a professional " ++ dq ++
       lightingStyle p ++ dq ++ " lighting setup to the entire scene. " ++
       "This must define the mood and shadows." ]
   else [])
  ++ (if negb (useArtReferenceSkin p) then
        (if String.eqb (skinTexture p) "Professional Dodge & Burn" then
           [ "- **SKIN RETOUCHING:** Apply a professional 'dodge and " ++
             "burn' retouching technique to the subject's skin to " ++
             "enhance contours, add depth, and create a sculpted, " ++
             "high-end look." ]
         else if String.eqb (skinTexture p)
                   "Professional Frequency Separation" then
           [ "- **SKIN RETOUCHING:** Apply a professional 'frequency " ++
             "separation' retouching technique. This involves " ++
             "separating skin texture from color/tone to perfectly " ++
             "smooth blemishes and transitions while preserving " ++
             "hyper-realistic skin texture." ]
         else if chosen (skinTexture p) then
           [ "- **SKIN TEXTURE:** Render the subject's skin with a " ++
             dq ++ skinTexture p ++ dq ++ " texture. Ensure it looks " ++
             "natural and maintains the original skin tone under " ++
             "consistent lighting." ]
         else [])
        ++ (if andb (chosen (highlightStyle p))
                    (chosen (highlightIntensity p)) then
              [ "- **SKIN HIGHLIGHTS:** Apply " ++ dq ++ highlightStyle p ++
                dq ++ " highlights to the skin at a " ++ dq ++
                highlightIntensity p ++ dq ++ " intensity." ]
            else [])
      else [])
  ++ (if nonEmpty (stylePrompt p) then
        [ "- **ADDITIONAL EFFECTS:** Render the final image " ++
          "incorporating this style: " ++ dq ++ stylePrompt p ++ dq ++ "." ]
      else []).

Definition stylizationSection : list string :=
  if Nat.ltb 0 (length finalTouches) then
    [ (nl ++ "**4. FINAL STYLIZATION**" ++ nl) ++ join nl finalTouches ]
  else [].

Definition tempDesc : string :=
  if Z.ltb (lightingTemperature p) 4000 then "warm, tungsten-like"
  else if Z.ltb 6500 (lightingTemperature p) then "cool, overcast-like"
  else "neutral daylight".

Definition exposurePositive : bool := negb (Qle_bool (exposure p) (0 # 1)).
Definition exposureSign : string := if exposurePositive then "+" else "".
Definition exposureWord : string :=
  if exposurePositive then "brighter" else "darker".

Definition cameraDetails : list string :=
  (if chosen (shootingMode p) then [ "Shooting Style: " ++ shootingMode p ] else [])
  ++ (if chosen (lensType p) then [ "Lens: " ++ lensType p ] else [])
  ++ (if chosen (perspectiveDistance p) then
        [ "Framing/Distance: " ++ perspectiveDistance p ] else [])
  ++ (if chosen (perspectiveAngle p) then
        [ "Angle/Tilt: " ++ perspectiveAngle p ] else [])
  ++ (if chosen (perspectivePOV p) then
        [ "Point of View: " ++ perspectivePOV p ] else [])
  ++ (if chosen (perspectiveMovement p) then
        [ "Camera Movement: " ++ perspectiveMovement p ] else [])
  ++ (if chosen (perspectiveLens p) then
        [ "Lens/Creative Style: " ++ perspectiveLens p ] else [])
  ++ (if chosen (aperture p) then
        [ "Aperture: " ++ aperture p ++ " (a low f-number like f/1.8 " ++
          "creates a very blurry background; a high f-number like f/16 " ++
          "keeps everything in focus)" ]
      else [])
  ++ (if chosen (shutterSpeed p) then
        [ "Shutter Speed: " ++ shutterSpeed p ++ " (a slow speed like " ++
          "1s can create motion blur; a fast speed like 1/1000s " ++
          "freezes action)" ]
      else [])
  ++ (if chosen (iso p) then
        [ "ISO: " ++ iso p ++ " (a high ISO like 6400 introduces " ++
          "noticeable film grain; a low ISO like 100 is clean)" ]
      else [])
  ++ [ "Color Temperature: " ++ showZ (lightingTemperature p) ++ "K (" ++
       tempDesc ++ " light)" ]
  ++ (if andb (String.eqb (focusMode p) "Manual")
              (nonEmpty (manualFocusSubject p)) then
        [ "Focus: Manually set the sharpest point of focus on " ++ dq ++
          manualFocusSubject p ++ dq ]
      else if andb (negb (String.eqb (focusMode p) "Auto"))
                   (negb (String.eqb (focusMode p) "Manual")) then
        [ "Focus: Set the sharpest point of focus on the " ++
          toLowerCase (focusMode p) ]
      else [])
  ++ (if negb (Qeq_bool (exposure p) (0 # 1)) then
        [ "Exposure Compensation: " ++ exposureSign ++
          toFixed1 (exposure p) ++ " EV (" ++ exposureWord ++ " image)" ]
      else []).

Definition cameraSection : list string :=
  if Nat.ltb 0 (length cameraDetails) then
    [ nl ++ "**5. CAMERA & LENS SETTINGS**" ++ nl ++
      "- **CRITICAL:** Simulate a professional camera with these " ++
      "settings: " ++ join "; " (cameraDetails) ++ "." ]
  else [].

Definition finalOutputRequirements : string :=
  nl ++ "**FINAL OUTPUT REQUIREMENTS**" ++ nl ++ "- Combine all " ++
  "elements into a single, cohesive, high-quality image, prioritizing " ++
  "the subject's identity above all.".

(** The array [instructionSet] when it is joined. *)
Definition instructionSet : list string :=
  [ masterPrompt; subjectInstructions ]
  ++ artStyleSection
  ++ compositionSection
  ++ stylizationSection
  ++ cameraSection
  ++ [ finalOutputRequirements ].

Definition labelled (label : string) (image : option ImageFile) : list Part :=
  match image with
  | Some file => [ TextPart label; fileToGenerativePart file ]
  | None => []
  end.

(** The array [parts] handed to [generateContent] by
    [generateStudioPhoto]. *)
Definition generateStudioPhoto_parts : list Part :=
  if isFlyerDesign then
    [ TextPart flyerInstructions; fileToGenerativePart (sourceImage p) ]
  else if isThumbnailDesign then
    [ TextPart thumbnailInstructions; fileToGenerativePart (sourceImage p) ]
  else
    [ TextPart (join nl instructionSet);
      TextPart "This is the [Subject] image:";
      fileToGenerativePart (sourceImage p) ]
    ++ labelled "This is the [Face Reference] image:" (faceReferenceImage p)
    ++ labelled "This is the [Art Style] image:" (artReferenceImage p)
    ++ labelled "This is the [Outfit] image:" (dressImage p)
    ++ labelled "This is the [Object] image:" (objectImage p)
    ++ (if String.eqb (backgroundMode p) "upload" then
          labelled "This is the [Background] image:" (backgroundImage p)
        else []).

End Composite.



Definition LIGHTING_STYLES : list string :=
  [ "None"; "Three-Point Lighting"; "Rembrandt Lighting"; "Split Lighting";
    "Loop Lighting"; "Butterfly Lighting"; "High-Key Lighting";
    "Low-Key Lighting"; "Motivated Lighting"; "Natural / Ambient Lighting" ].







Definition isImage (x : Part) : bool :=
  match x with InlineDataPart _ _ => true | TextPart _ => false end.


Definition images (parts : list Part) : list Part := filter isImage parts.









(** The synthesized prompt: the text of the first block. *)
Definition synthesizedPrompt (p : GenerateStudioPhotoParams) : string :=
  match generateStudioPhoto_parts p with
  | TextPart t :: _ => t
  | _ => EmptyString
  end.

(** The request [handleGenerate] of [App.tsx] sends when only a subject
    image has been chosen: every state variable still holds its initial
    value, and [stylePrompt] is the join of no selected effect. *)
Definition defaultParams (image : ImageFile) : GenerateStudioPhotoParams :=
  {| sourceImage := image;
     subjectMode := "single";
     subjectPrompt := "";
     faceReferenceImage := None;
     dressImage := None;
     dressPrompt := "";
     objectImage := None;
     backgroundImage := None;
     backgroundPrompt := "";
     backgroundMode := "describe";
     stylePrompt := "";
     artReferenceImage := None;
     artReferencePrompt := "";
     artStyleInfluence := 75;
     subjectInfluence := 75;
     surprise := 25;
     integrationAnalysis := "";
     lightingStyle := "None";
     perspectiveDistance := "None";
     perspectiveAngle := "None";
     perspectivePOV := "None";
     perspectiveMovement := "None";
     perspectiveLens := "None";
     useArtReferenceLighting := false;
     useArtReferenceSkin := false;
     flyerText := "";
     thumbnailText := "";
     skinTexture := "None";
     highlightStyle := "None";
     highlightIntensity := "None";
     aperture := "None";
     shutterSpeed := "None";
     iso := "None";
     focusMode := "Auto";
     manualFocusSubject := "";
     exposure := 0 # 1;
     lensType := "None";
     shootingMode := "None";
     lightingTemperature := 5500 |}.





(** The subject section and the camera section of the request that
    carries a subject image only. *)
Definition defaultCameraSection : string :=
  nl ++ "**5. CAMERA & LENS SETTINGS**" ++ nl ++
  "- **CRITICAL:** Simulate a professional camera with these settings: " ++
  "Color Temperature: 5500K (neutral daylight light).".

Definition defaultSubjectSection : string :=
  nl ++ "**1. SUBJECT & IDENTITY (PARAMOUNT PRIORITY)**" ++ nl ++
  "- The person in the [Subject] image is/are your primary subject." ++ nl ++
  "- **CRITICAL:** You MUST perfectly preserve their facial features, " ++
  "structure, and identity. The final image must be unmistakably the " ++
  "same person.".

End Prompt.

(* ===================================================================== *)
(** ** Response handling of the six operations *)
(* ===================================================================== *)

Module Response.
Import Js.
Local Open Scope string_scope.

Record InlineData : Type := mkInlineData {
  data : string;
  mimeType : string
}.

(** A content block of a response; [text] here is [part.text]. *)
Record ResponsePart : Type := mkPart {
  inlineData : option InlineData;
  text : option string
}.

Record SafetyRating : Type := mkRating {
  category : string;
  blocked : bool
}.

(** [content] is [firstCandidate.content?.parts]. *)
Record Candidate : Type := mkCandidate {
  finishReason : option string;
  safetyRatings : option (list SafetyRating);
  content : option (list ResponsePart)
}.

(** [responseText] is the accessor [response.text] of the client
    library. *)
Record GenerateContentResponse : Type := mkResponse {
  candidates : option (list Candidate);
  responseText : option string
}.

(** [GeminiOutput]; [outputText] is its field [text]. *)
Record GeminiOutput : Type := mkOutput {
  imageUrl : option string;
  outputText : option string
}.

(** [response.candidates?.[0]]. *)
Definition firstCandidate (response : GenerateContentResponse)
  : option Candidate :=
  match candidates response with
  | Some (c :: _) => Some c
  | _ => None
  end.

Definition truthyStr (o : option string) : bool :=
  match o with Some s => nonEmpty s | None => false end.

Definition isOneOf (l : list string) (x : string) : bool :=
  existsb (String.eqb x) l.

Fixpoint dropChars (n : nat) (s : string) : string :=
  match n, s with
  | S n', String _ s' => dropChars n' s'
  | _, _ => s
  end.

(** [s.replace(pattern, replacement)] for a string pattern: the first
    occurrence only. *)
Fixpoint replaceFirst (pattern replacement s : string) : string :=
  if String.prefix pattern s then
    replacement ++ dropChars (String.length pattern) s
  else match s with
       | EmptyString => EmptyString
       | String c s' => String c (replaceFirst pattern replacement s')
       end.

(** [safetyRatings?.filter(r => r.blocked).map(r =>
    r.category.replace('HARM_CATEGORY_', ''))]. *)
Definition blockedRatings (c : Candidate) : option (list string) :=
  match safetyRatings c with
  | None => None
  | Some ratings =>
      Some (map (fun r => replaceFirst "HARM_CATEGORY_" "" (category r))
                (filter blocked ratings))
  end.

(** [blockedRatings?.join(', ') || 'unspecified']. *)
Definition blockedList (c : Candidate) : string :=
  match blockedRatings c with
  | None => "unspecified"
  | Some l => if nonEmpty (join ", " l) then join ", " l else "unspecified"
  end.

Definition isSafetyReason (reason : string) : bool :=
  isOneOf ["SAFETY"; "IMAGE_SAFETY"] reason.

(** The data URI of an inline image. *)
Definition dataUrl (d : InlineData) : string :=
  "data:" ++ mimeType d ++ ";base64," ++ data d.

(** One iteration of the loop over the parts, in the variant that
    appends the text,
    [output.text = (output.text || "") + part.text] ... *)
Definition scanConcat (output : GeminiOutput) (part : ResponsePart)
  : GeminiOutput :=
  match inlineData part with
  | Some d => mkOutput (Some (dataUrl d)) (outputText output)
  | None =>
      if truthyStr (text part) then
        mkOutput (imageUrl output)
          (Some (match outputText output with
                 | Some prev => prev
                 | None => ""
                 end ++ match text part with Some t => t | None => "" end))
      else output
  end.

(** ... and in the variant that assigns it,
    [output.text = part.text]. *)
Definition scanOverwrite (output : GeminiOutput) (part : ResponsePart)
  : GeminiOutput :=
  match inlineData part with
  | Some d => mkOutput (Some (dataUrl d)) (outputText output)
  | None =>
      if truthyStr (text part) then mkOutput (imageUrl output) (text part)
      else output
  end.

Definition emptyOutput : GeminiOutput := mkOutput None None.

Definition scanParts (scan : GeminiOutput -> ResponsePart -> GeminiOutput)
  (c : Candidate) : GeminiOutput :=
  match content c with
  | Some parts => fold_left scan parts emptyOutput
  | None => emptyOutput
  end.

(** The [catch] block around each operation. *)
Definition rethrow (A : Type) (prefix : string) (r : result A) : result A :=
  match r with
  | Ok a => Ok a
  | Throw e => Throw (ErrorObj (prefix ++ messageOf e))
  end.

(** What the four image operations do with the settled queue promise;
    they differ in their messages and in the loop variant. *)
Section ImageOperation.

Variable emptyMessage : string.
Variable safetyMessage : Candidate -> string.
Variable unexpectedMessage : string -> string.
Variable scan : GeminiOutput -> ResponsePart -> GeminiOutput.
Variable noImageMessage : string.

(** The loop and the check that an image came back. *)
Definition extractOutput (c : Candidate) : result GeminiOutput :=
  let output := scanParts scan c in
  if truthyStr (imageUrl output) then Ok output
  else Throw (ErrorObj noImageMessage).

Definition interpretImage (response : GenerateContentResponse)
  : result GeminiOutput :=
  match firstCandidate response with
  | None => Throw (ErrorObj emptyMessage)
  | Some c =>
      match finishReason c with
      | Some reason =>
          if andb (nonEmpty reason)
                  (negb (isOneOf ["STOP"; "MAX_TOKENS"] reason)) then
            if isSafetyReason reason then Throw (ErrorObj (safetyMessage c))
            else Throw (ErrorObj (unexpectedMessage reason))
          else extractOutput c
      | None => extractOutput c
      end
  end.

Definition imageOperation (wrapper : string)
  (settled : result GenerateContentResponse) : result GeminiOutput :=
  rethrow wrapper
    match settled with
    | Ok response => interpretImage response
    | Throw e => Throw e
    end.

End ImageOperation.

Definition emptyResponseMessage : string :=
  "The AI returned an empty response, which may be due to a content " ++
  "policy violation or a server error.".

(** [generateStudioPhoto], from the settlement of
    [enqueue(() => withRetry(apiCall))] on. *)
Definition generateStudioPhoto_result
  : result GenerateContentResponse -> result GeminiOutput :=
  imageOperation emptyResponseMessage
    (fun c =>
       "Request blocked for safety reasons: " ++ blockedList c ++
       ". This can sometimes happen with portraits. Try using a " ++
       "different reference image or adjusting your text prompts.")
    (fun reason =>
       "Generation stopped for an unexpected reason: " ++ reason ++ ".")
    scanConcat
    ("The AI did not return an image. This can happen with unusual " ++
     "prompts. Please try again with a different prompt.")
    "An error occurred while communicating with the AI. Details: ".

Definition inpaintImage_result
  : result GenerateContentResponse -> result GeminiOutput :=
  imageOperation emptyResponseMessage
    (fun c =>
       "In-painting request blocked for safety reasons: " ++ blockedList c ++
       ". This can sometimes happen with portraits. Try using a " ++
       "different reference image or adjusting your text prompts.")
    (fun reason =>
       "In-painting stopped for an unexpected reason: " ++ reason ++ ".")
    scanOverwrite
    "The AI did not return an image for in-painting. Please try again."
    "An error occurred during in-painting. Details: ".

Definition swapFace_result
  : result GenerateContentResponse -> result GeminiOutput :=
  imageOperation emptyResponseMessage
    (fun c =>
       "Face swap request blocked for safety reasons: " ++ blockedList c ++
       ". This can sometimes happen with portraits. Try using a " ++
       "different reference image.")
    (fun reason =>
       "Face swap stopped for an unexpected reason: " ++ reason ++ ".")
    scanConcat
    "The AI did not return an image for the face swap. Please try again."
    "An error occurred while swapping the face. Details: ".

Definition manipulateScene_result
  : result GenerateContentResponse -> result GeminiOutput :=
  imageOperation
    ("The AI returned an empty response, possibly due to a content " ++
     "policy violation.")
    (fun c =>
       "Request blocked for safety reasons: " ++ blockedList c ++
       ". Please adjust your prompt or use a different image.")
    (fun reason => "Generation stopped unexpectedly: " ++ reason ++ ".")
    scanOverwrite
    "The AI did not return an image for scene manipulation."
    "An error occurred during scene manipulation. Details: ".

(** The safety check of [describeImage]: the candidate for which it
    throws. *)
Definition describeBlocked (response : GenerateContentResponse)
  : option Candidate :=
  match firstCandidate response with
  | Some c =>
      match finishReason c with
      | Some reason =>
          if andb (nonEmpty reason) (negb (String.eqb reason "STOP")) then
            if isSafetyReason reason then Some c else None
          else None
      | None => None
      end
  | None => None
  end.

(** [describeImage], from the settlement on; the value returned is
    [response.text], possibly [undefined]. *)
Definition describeImage_result (settled : result GenerateContentResponse)
  : result (option string) :=
  rethrow "Failed to generate image description. Details: "
    match settled with
    | Throw e => Throw e
    | Ok response =>
        match describeBlocked response with
        | Some c =>
            Throw (ErrorObj
                     ("Image description blocked for safety reasons: " ++
                      blockedList c ++ ". Please use a different image."))
        | None => Ok (responseText response)
        end
    end.

Definition isSpace (c : ascii) : bool :=
  let n := nat_of_ascii c in
  orb (andb (9 <=? n)%nat (n <=? 13)%nat)
      (orb (Nat.eqb n 32) (Nat.eqb n 160)).

Fixpoint trimStart (s : string) : string :=
  match s with
  | String c s' => if isSpace c then trimStart s' else s
  | EmptyString => EmptyString
  end.

Fixpoint trimEnd (s : string) : string :=
  match s with
  | EmptyString => EmptyString
  | String c s' =>
      match trimEnd s' with
      | EmptyString => if isSpace c then EmptyString
                       else String c EmptyString
      | rest => String c rest
      end
  end.

(** [String.prototype.trim]. *)
Definition trim (s : string) : string := trimEnd (trimStart s).

(** The messages of the [TypeError]s the runtime raises; the wording is
    that of V8, and for the last one it also names the value. *)
Definition readOfUndefined (property : string) : string :=
  "Cannot read properties of undefined (reading '" ++ property ++ "')".
Definition readOfNull (property : string) : string :=
  "Cannot read properties of null (reading '" ++ property ++ "')".
Definition createOnPrimitive (property : string) : string :=
  "Cannot create property '" ++ property ++ "' on a primitive value".

Definition isLightingStyle (v : option jsval) : bool :=
  match v with
  | Some (JStr s) => isOneOf Prompt.LIGHTING_STYLES s
  | _ => false
  end.

(** The check of [result.lightingStyle] and the fallback assignment, in
    a module, so in strict mode. *)
Definition validateLightingStyle (parsed : jsval) : result jsval :=
  match parsed with
  | JNull => Throw (ErrorObj (readOfNull "lightingStyle"))
  | _ =>
      if isLightingStyle (getProp parsed "lightingStyle") then Ok parsed
      else
        match parsed with
        | JObj props =>
            Ok (JObj (setAssoc "lightingStyle" (JStr "None") props))
        | JArr elems named =>
            Ok (JArr elems (setAssoc "lightingStyle" (JStr "None") named))
        | _ => Throw (ErrorObj (createOnPrimitive "lightingStyle"))
        end
  end.

Section WithRuntime.

Variable JSON_parse : string -> result jsval.

(** [analyzeArtReference], from the settlement on. *)
Definition analyzeArtReference_result
  (settled : result GenerateContentResponse) : result jsval :=
  rethrow "Failed to analyze art reference. Details: "
    match settled with
    | Throw e => Throw e
    | Ok response =>
        match responseText response with
        | None => Throw (ErrorObj (readOfUndefined "trim"))
        | Some t =>
            match JSON_parse (trim t) with
            | Throw e => Throw e
            | Ok parsed => validateLightingStyle parsed
            end
        end
    end.

End WithRuntime.

(** The parts of the first candidate that the loop visits. *)
Definition candidateParts (response : GenerateContentResponse)
  : list ResponsePart :=
  match firstCandidate response with
  | Some c => match content c with Some parts => parts | None => [] end
  | None => []
  end.

(** The text blocks among them: no inline data and a non-empty text. *)
Definition textBlocks (parts : list ResponsePart) : list string :=
  flat_map
    (fun part =>
       match inlineData part, text part with
       | None, Some t => if nonEmpty t then [t] else []
       | _, _ => []
       end)
    parts.

(** The last text block, or [null]. *)
Definition lastText (parts : list ResponsePart) : option string :=
  match rev (textBlocks parts) with
  | t :: _ => Some t
  | [] => None
  end.

Definition concatAll (blocks : list string) : string :=
  fold_right String.append EmptyString blocks.

(** All text blocks in one string, or [null] when there is none. *)
Definition allText (parts : list ResponsePart) : option string :=
  match textBlocks parts with
  | [] => None
  | blocks => Some (concatAll blocks)
  end.

(** A [JSON.parse] known on the listed texts only. *)
Fixpoint parserOf (known : list (string * jsval)) (json : string)
  : result jsval :=
  match known with
  | [] => Throw (ErrorObj ("Unexpected token in JSON: " ++ json))
  | (t, v) :: rest => if String.eqb json t then Ok v else parserOf rest json
  end.

(** [output.text || ""]. *)
Definition orEmpty (o : option string) : string :=
  match o with Some s => s | None => EmptyString end.

End Response.

(* ===================================================================== *)
(** ** Sample runs, requests and responses *)
(* ===================================================================== *)

Module Scenarios.
Import Js.
Local Open Scope string_scope.

(** The third attempt fails with a network error after two rate-limit
    failures. *)
Definition twoLimitsThenNetworkError (attempt : nat) : result unit :=
  if Nat.ltb attempt 2 then Throw (ErrorObj "got status: 429 Too Many Requests")
  else Throw (ErrorObj "Failed to fetch").

(** Three calls; the second and third arrive while the first unit of
    work is pending, and the second unit is retried for four seconds. *)
Definition threeCallers : list Queue.event :=
  [Queue.Enqueue 0%N; Queue.Enqueue 10%N; Queue.Enqueue 20%N;
   Queue.Settle 900%N 0%nat; Queue.Timer 1900%N;
   Queue.Settle 6400%N 1%nat; Queue.Timer 7400%N].

Definition portrait : Prompt.ImageFile :=
  Prompt.mkImageFile "iVBORw0KGgo=" "image/png" "blob:portrait".

Import Response.

(** A response with two text blocks around an image. *)
Definition twoTextsAndImage : GenerateContentResponse :=
  mkResponse
    (Some [mkCandidate (Some "STOP") None
             (Some [mkPart None (Some "Here is ");
                    mkPart (Some (mkInlineData "iVBORw0KGgo=" "image/png"))
                      None;
                    mkPart None (Some "your image.")])])
    (Some "Here is your image.").

Definition imageOfTwoTexts : option string :=
  Some "data:image/png;base64,iVBORw0KGgo=".

(** A candidate stopped for safety that still carries the JSON text. *)
Definition analysisJson : string :=
  "{" ++ dq ++ "styleDescription" ++ dq ++ ":" ++ dq ++ "Oil on canvas." ++
  dq ++ "," ++ dq ++ "integrationPlan" ++ dq ++ ":" ++ dq ++
  "Repaint the subject." ++ dq ++ "," ++ dq ++ "lightingStyle" ++ dq ++ ":" ++
  dq ++ "Low-Key Lighting" ++ dq ++ "," ++ dq ++ "actionPrompt" ++ dq ++ ":" ++
  dq ++ "A woman turns to the light." ++ dq ++ "}".

Definition analysisValue : jsval :=
  JObj [("styleDescription", JStr "Oil on canvas.");
        ("integrationPlan", JStr "Repaint the subject.");
        ("lightingStyle", JStr "Low-Key Lighting");
        ("actionPrompt", JStr "A woman turns to the light.")].

Definition explicitRating : SafetyRating :=
  mkRating "HARM_CATEGORY_SEXUALLY_EXPLICIT" true.

Definition safetyStopWithText : GenerateContentResponse :=
  mkResponse
    (Some [mkCandidate (Some "SAFETY") (Some [explicitRating])
             (Some [mkPart None (Some analysisJson)])])
    (Some analysisJson).

Definition safetyStopWithoutText : GenerateContentResponse :=
  mkResponse
    (Some [mkCandidate (Some "SAFETY") (Some [explicitRating]) None])
    None.

(** The service names a lighting style that is not in the list. *)
Definition moonlitJson : string :=
  "{" ++ dq ++ "lightingStyle" ++ dq ++ ":" ++ dq ++ "Moonlight" ++ dq ++ "}".

Definition moonlitResponse : GenerateContentResponse :=
  mkResponse
    (Some [mkCandidate (Some "STOP") None
             (Some [mkPart None (Some (" " ++ moonlitJson ++ nl))])])
    (Some (" " ++ moonlitJson ++ nl)).

Definition moonlitParser : string -> result jsval :=
  parserOf [(moonlitJson, JObj [("lightingStyle", JStr "Moonlight")])].

End Scenarios.

(* ===================================================================== *)
(** ** Retry policy: messages and call tables *)
(* ===================================================================== *)

Module RetryText.
Import Js.
Local Open Scope string_scope.

(** No character of the string is a line terminator. *)
Fixpoint singleLine (s : string) : bool :=
  match s with
  | EmptyString => true
  | String c rest => andb (negb (Retry.isLineTerminator c)) (singleLine rest)
  end.

(** The message of an error whose JSON body is printed on several
    lines. *)
Definition prettyPrintedBody : string :=
  "got status: 503 {" ++ nl ++ "  " ++ dq ++ "error" ++ dq ++ ": {" ++ dq ++
  "status" ++ dq ++ ": " ++ dq ++ "UNAVAILABLE" ++ dq ++ "}" ++ nl ++ "}".

(** The second attempt succeeds after one rate-limit failure. *)
Definition limitThenAnswer (attempt : nat) : result string :=
  if Nat.eqb attempt 0 then Throw (ErrorObj "RESOURCE_EXHAUSTED")
  else Ok "answer".

(** The delay of a back-off as [withRetry] computes it where it is
    called, with the defaults [initialDelay = 3000] and
    [backoffFactor = 2]: the product is a whole number, and the sum
    with the jitter is a double again, so it is rounded.  [fl] is the
    rounding of a number to a double. *)
Definition defaultDelay (fl : Q -> Q) (attempt : nat) (jitter : Q) : Q :=
  fl (Retry.backoffDelay 3000 2 attempt jitter).

(** A rounding to the nearest whole number, the larger one on a tie. *)
Definition nearestUnit (x : Q) : Q := inject_Z (Qfloor (x + (1 # 2))).

End RetryText.

(* ===================================================================== *)
(** ** Serial request queue: bookkeeping *)
(* ===================================================================== *)

Module QueueBooks.
Import Queue.
Local Open Scope nat_scope.

(** The tasks whose unit of work has settled, in the order of the
    journal. *)
Definition settledTasks (s : state) : list task :=
  flat_map (fun m => match m with Settled t => [t] | Started _ => [] end)
    (marks s).

(** Two calls; the first unit of work settles while the second task
    waits for it. *)
Definition secondWaits : list event :=
  [Enqueue 0%N; Enqueue 10%N; Settle 900%N 0].

(** While tasks wait and nothing is in flight, a timer is pending. *)
Definition timerArmed (s : state) : Prop :=
  isProcessing s = false -> requestQueue s <> [] -> timers s <> [].

End QueueBooks.

(* ===================================================================== *)
(** ** Response handling: the images of an answer *)
(* ===================================================================== *)

Module ResponseParts.
Import Js Response.
Local Open Scope string_scope.

(** The inline images among the parts, in order. *)
Definition inlineImages (parts : list ResponsePart) : list InlineData :=
  flat_map (fun part => match inlineData part with
                        | Some d => [d]
                        | None => []
                        end) parts.

(** The last inline image, if there is one. *)
Definition lastInline (parts : list ResponsePart) : option InlineData :=
  match rev (inlineImages parts) with
  | d :: _ => Some d
  | [] => None
  end.

(** The finish reason lets the operation go on to the parts: it is
    absent, empty, [STOP] or [MAX_TOKENS]. *)
Definition acceptableFinish (c : Candidate) : bool :=
  match finishReason c with
  | Some reason =>
      orb (negb (nonEmpty reason)) (isOneOf ["STOP"; "MAX_TOKENS"] reason)
  | None => true
  end.

(** An answer whose lighting style is a number. *)
Definition numberedStyleJson : string :=
  "{" ++ dq ++ "lightingStyle" ++ dq ++ ":3," ++ dq ++ "mood" ++ dq ++ ":" ++
  dq ++ "calm" ++ dq ++ "}".

Definition numberedStyle : jsval :=
  JObj [("lightingStyle", JNum 3); ("mood", JStr "calm")].

(** A safety rating of the service: the category name carries the
    prefix that the messages strip. *)
Definition harmRating (entry : string * bool) : SafetyRating :=
  mkRating ("HARM_CATEGORY_" ++ fst entry) (snd entry).

(** A response without candidates, one that was cut for another reason,
    and one with two images. *)
Definition noCandidates : GenerateContentResponse :=
  mkResponse None (Some "a portrait").

Definition recitationStop : GenerateContentResponse :=
  mkResponse
    (Some [mkCandidate (Some "RECITATION") None
             (Some [mkPart None (Some "a portrait")])])
    (Some "a portrait").

Definition twoImages : GenerateContentResponse :=
  mkResponse
    (Some [mkCandidate (Some "MAX_TOKENS") None
             (Some [mkPart (Some (mkInlineData "AAAA" "image/png")) None;
                    mkPart (Some (mkInlineData "BBBB" "image/jpeg"))
                      (Some "ignored")])])
    None.

Definition ratedCandidate : Candidate :=
  mkCandidate (Some "SAFETY")
    (Some (map harmRating
             [("HARASSMENT", false); ("SEXUALLY_EXPLICIT", true);
              ("DANGEROUS_CONTENT", true)]))
    None.

End ResponseParts.

(* ===================================================================== *)
(** ** An operation from the request to the outcome *)
(* ===================================================================== *)

Module Pipeline.
Import Js Retry Response.

(** [await enqueue(() => withRetry(apiCall))] as every operation writes
    it: the defaults of [withRetry], and the settlement the queue hands
    on unchanged. *)
Definition queuedCall (JSON_parse : string -> result jsval)
  (apiCall : nat -> result GenerateContentResponse) (jitter : nat -> Q)
  : result GenerateContentResponse :=
  snd (withRetry JSON_parse apiCall jitter 5 3000 2).

(** A service that answers 429 to every request, and a network that is
    down. *)
Definition alwaysLimited (attempt : nat) : result GenerateContentResponse :=
  Throw (ErrorObj "got status: 429 Too Many Requests").

Definition networkDown (attempt : nat) : result GenerateContentResponse :=
  Throw (ErrorObj "Failed to fetch").

End Pipeline.

(* ===================================================================== *)
(** ** Prompt assembly: the inputs a request reads *)
(* ===================================================================== *)

Module PromptInputs.
Import Js Prompt.
Local Open Scope string_scope.

(** The request with another background image and background text. *)
Definition withBackground (image : option ImageFile) (text : string)
  (p : GenerateStudioPhotoParams) : GenerateStudioPhotoParams :=
  {| sourceImage := sourceImage p;
     subjectMode := subjectMode p;
     subjectPrompt := subjectPrompt p;
     faceReferenceImage := faceReferenceImage p;
     dressImage := dressImage p;
     dressPrompt := dressPrompt p;
     objectImage := objectImage p;
     backgroundImage := image;
     backgroundPrompt := text;
     backgroundMode := backgroundMode p;
     stylePrompt := stylePrompt p;
     artReferenceImage := artReferenceImage p;
     artReferencePrompt := artReferencePrompt p;
     artStyleInfluence := artStyleInfluence p;
     subjectInfluence := subjectInfluence p;
     surprise := surprise p;
     integrationAnalysis := integrationAnalysis p;
     lightingStyle := lightingStyle p;
     perspectiveDistance := perspectiveDistance p;
     perspectiveAngle := perspectiveAngle p;
     perspectivePOV := perspectivePOV p;
     perspectiveMovement := perspectiveMovement p;
     perspectiveLens := perspectiveLens p;
     useArtReferenceLighting := useArtReferenceLighting p;
     useArtReferenceSkin := useArtReferenceSkin p;
     flyerText := flyerText p;
     thumbnailText := thumbnailText p;
     skinTexture := skinTexture p;
     highlightStyle := highlightStyle p;
     highlightIntensity := highlightIntensity p;
     aperture := aperture p;
     shutterSpeed := shutterSpeed p;
     iso := iso p;
     focusMode := focusMode p;
     manualFocusSubject := manualFocusSubject p;
     exposure := exposure p;
     lensType := lensType p;
     shootingMode := shootingMode p;
     lightingTemperature := lightingTemperature p |}.

(** The request with another lighting style, skin texture and highlight
    pairing. *)
Definition withFinish (lighting texture highlight intensity : string)
  (p : GenerateStudioPhotoParams) : GenerateStudioPhotoParams :=
  {| sourceImage := sourceImage p;
     subjectMode := subjectMode p;
     subjectPrompt := subjectPrompt p;
     faceReferenceImage := faceReferenceImage p;
     dressImage := dressImage p;
     dressPrompt := dressPrompt p;
     objectImage := objectImage p;
     backgroundImage := backgroundImage p;
     backgroundPrompt := backgroundPrompt p;
     backgroundMode := backgroundMode p;
     stylePrompt := stylePrompt p;
     artReferenceImage := artReferenceImage p;
     artReferencePrompt := artReferencePrompt p;
     artStyleInfluence := artStyleInfluence p;
     subjectInfluence := subjectInfluence p;
     surprise := surprise p;
     integrationAnalysis := integrationAnalysis p;
     lightingStyle := lighting;
     perspectiveDistance := perspectiveDistance p;
     perspectiveAngle := perspectiveAngle p;
     perspectivePOV := perspectivePOV p;
     perspectiveMovement := perspectiveMovement p;
     perspectiveLens := perspectiveLens p;
     useArtReferenceLighting := useArtReferenceLighting p;
     useArtReferenceSkin := useArtReferenceSkin p;
     flyerText := flyerText p;
     thumbnailText := thumbnailText p;
     skinTexture := texture;
     highlightStyle := highlight;
     highlightIntensity := intensity;
     aperture := aperture p;
     shutterSpeed := shutterSpeed p;
     iso := iso p;
     focusMode := focusMode p;
     manualFocusSubject := manualFocusSubject p;
     exposure := exposure p;
     lensType := lensType p;
     shootingMode := shootingMode p;
     lightingTemperature := lightingTemperature p |}.

(** The request with another style prompt. *)
Definition withStylePrompt (style : string)
  (p : GenerateStudioPhotoParams) : GenerateStudioPhotoParams :=
  {| sourceImage := sourceImage p;
     subjectMode := subjectMode p;
     subjectPrompt := subjectPrompt p;
     faceReferenceImage := faceReferenceImage p;
     dressImage := dressImage p;
     dressPrompt := dressPrompt p;
     objectImage := objectImage p;
     backgroundImage := backgroundImage p;
     backgroundPrompt := backgroundPrompt p;
     backgroundMode := backgroundMode p;
     stylePrompt := style;
     artReferenceImage := artReferenceImage p;
     artReferencePrompt := artReferencePrompt p;
     artStyleInfluence := artStyleInfluence p;
     subjectInfluence := subjectInfluence p;
     surprise := surprise p;
     integrationAnalysis := integrationAnalysis p;
     lightingStyle := lightingStyle p;
     perspectiveDistance := perspectiveDistance p;
     perspectiveAngle := perspectiveAngle p;
     perspectivePOV := perspectivePOV p;
     perspectiveMovement := perspectiveMovement p;
     perspectiveLens := perspectiveLens p;
     useArtReferenceLighting := useArtReferenceLighting p;
     useArtReferenceSkin := useArtReferenceSkin p;
     flyerText := flyerText p;
     thumbnailText := thumbnailText p;
     skinTexture := skinTexture p;
     highlightStyle := highlightStyle p;
     highlightIntensity := highlightIntensity p;
     aperture := aperture p;
     shutterSpeed := shutterSpeed p;
     iso := iso p;
     focusMode := focusMode p;
     manualFocusSubject := manualFocusSubject p;
     exposure := exposure p;
     lensType := lensType p;
     shootingMode := shootingMode p;
     lightingTemperature := lightingTemperature p |}.

(** The request with another exposure value. *)
Definition withExposure (value : Q)
  (p : GenerateStudioPhotoParams) : GenerateStudioPhotoParams :=
  {| sourceImage := sourceImage p;
     subjectMode := subjectMode p;
     subjectPrompt := subjectPrompt p;
     faceReferenceImage := faceReferenceImage p;
     dressImage := dressImage p;
     dressPrompt := dressPrompt p;
     objectImage := objectImage p;
     backgroundImage := backgroundImage p;
     backgroundPrompt := backgroundPrompt p;
     backgroundMode := backgroundMode p;
     stylePrompt := stylePrompt p;
     artReferenceImage := artReferenceImage p;
     artReferencePrompt := artReferencePrompt p;
     artStyleInfluence := artStyleInfluence p;
     subjectInfluence := subjectInfluence p;
     surprise := surprise p;
     integrationAnalysis := integrationAnalysis p;
     lightingStyle := lightingStyle p;
     perspectiveDistance := perspectiveDistance p;
     perspectiveAngle := perspectiveAngle p;
     perspectivePOV := perspectivePOV p;
     perspectiveMovement := perspectiveMovement p;
     perspectiveLens := perspectiveLens p;
     useArtReferenceLighting := useArtReferenceLighting p;
     useArtReferenceSkin := useArtReferenceSkin p;
     flyerText := flyerText p;
     thumbnailText := thumbnailText p;
     skinTexture := skinTexture p;
     highlightStyle := highlightStyle p;
     highlightIntensity := highlightIntensity p;
     aperture := aperture p;
     shutterSpeed := shutterSpeed p;
     iso := iso p;
     focusMode := focusMode p;
     manualFocusSubject := manualFocusSubject p;
     exposure := value;
     lensType := lensType p;
     shootingMode := shootingMode p;
     lightingTemperature := lightingTemperature p |}.

(** An optional image as a list. *)
Definition imageList (image : option ImageFile) : list ImageFile :=
  match image with Some file => [file] | None => [] end.

(** The images of a request in the order of the labels of the sectioned
    template. *)
Definition labelledImages (p : GenerateStudioPhotoParams) : list ImageFile :=
  imageList (faceReferenceImage p) ++ imageList (artReferenceImage p)
  ++ imageList (dressImage p) ++ imageList (objectImage p)
  ++ (if String.eqb (backgroundMode p) "upload"
      then imageList (backgroundImage p) else []).

(** The text of the mode that reads the background text, and whether the
    background image is read. *)
Definition readsBackgroundImage (p : GenerateStudioPhotoParams) : bool :=
  String.eqb (backgroundMode p) "upload".

Definition readsBackgroundText (p : GenerateStudioPhotoParams) : bool :=
  orb (andb (String.eqb (backgroundMode p) "upload")
            (present (backgroundImage p)))
      (String.eqb (backgroundMode p) "describe").

End PromptInputs.

(* ===================================================================== *)
(** ** The client singleton: [getAiClientAndEnums] *)
(* ===================================================================== *)

Module AiClient.
Import Js.
Local Open Scope string_scope.

Section WithClient.

(** What [new GoogleGenAI(...)] builds. *)
Variable Client : Type.

(** What a first call finds: whether the dynamic import resolves, the
    value of [process.env.API_KEY], and what the constructor does with a
    key. *)
Record environment : Type := mkEnvironment {
  importModule : result unit;
  API_KEY : option string;
  newClient : string -> result Client
}.

(** The body of the async function whose promise is cached. *)
Definition initialize (env : environment) : result Client :=
  match importModule env with
  | Throw e => Throw e
  | Ok _ =>
      match API_KEY env with
      | Some key =>
          if nonEmpty key then
            match newClient env key with
            | Ok ai => Ok ai
            | Throw e =>
                Throw (ErrorObj
                         ("Failed to initialize AI service. Details: " ++
                          messageOf e))
            end
          else
            Throw (ErrorObj
                     ("API_KEY environment variable is not set. Please " ++
                      "configure it in your environment."))
      | None =>
          Throw (ErrorObj
                   ("API_KEY environment variable is not set. Please " ++
                    "configure it in your environment."))
      end
  end.

(** [getAiClientAndEnums()] on the module variable
    [aiAndModulePromise]: the variable afterwards and the settlement of
    the promise returned. *)
Definition getAiClientAndEnums (aiAndModulePromise : option (result Client))
  (env : environment) : option (result Client) * result Client :=
  match aiAndModulePromise with
  | Some settled => (aiAndModulePromise, settled)
  | None => (Some (initialize env), initialize env)
  end.

(** Calls one after the other, each in the environment of its time. *)
Fixpoint successiveCalls (aiAndModulePromise : option (result Client))
  (envs : list environment) : list (result Client) :=
  match envs with
  | [] => []
  | env :: later =>
      snd (getAiClientAndEnums aiAndModulePromise env)
      :: successiveCalls (fst (getAiClientAndEnums aiAndModulePromise env)) later
  end.

End WithClient.

End AiClient.

(* ===================================================================== *)
(** ** The page: history, reuse of an output, selected effects, upload *)
(* ===================================================================== *)

Module App.
Import Js.
Local Open Scope string_scope.

(** *** The history of outputs *)

Record historyState : Type := mkHistory {
  history : list Response.GeminiOutput;
  historyIndex : Z
}.

Definition initialHistory : historyState := mkHistory [] (-1).

(** [history[historyIndex] ?? null]. *)
Definition currentOutput (st : historyState) : option Response.GeminiOutput :=
  if (historyIndex st <? 0)%Z then None
  else nth_error (history st) (Z.to_nat (historyIndex st)).

Definition canUndo (st : historyState) : bool := (0 <? historyIndex st)%Z.

Definition canRedo (st : historyState) : bool :=
  (historyIndex st <? Z.of_nat (length (history st)) - 1)%Z.

(** [array.slice(0, end)]. *)
Definition sliceTo (A : Type) (l : list A) (end_ : Z) : list A :=
  if (end_ <? 0)%Z
  then firstn (Z.to_nat (Z.max (Z.of_nat (length l) + end_) 0)) l
  else firstn (Z.to_nat end_) l.

(** [updateHistory(newOutput)], on the state its closure holds. *)
Definition updateHistory (st : historyState)
  (newOutput : Response.GeminiOutput) : historyState :=
  let newHistory :=
    (sliceTo (history st) (historyIndex st + 1) ++ [newOutput])%list in
  mkHistory newHistory (Z.of_nat (length newHistory) - 1).

Definition handleUndo (st : historyState) : historyState :=
  if canUndo st then mkHistory (history st) (historyIndex st - 1) else st.

Definition handleRedo (st : historyState) : historyState :=
  if canRedo st then mkHistory (history st) (historyIndex st + 1) else st.

(** What happens to the history: the two buttons, an output that
    arrives -- for the state of [rendersAgo] renders before, which the
    closure of the handler that awaited it still holds -- and the reset
    of [handleCreateFromOutput]. *)
Inductive historyAction : Type :=
| Undo
| Redo
| Arrives (rendersAgo : nat) (output : Response.GeminiOutput)
| Reset.

(** The states rendered so far, the latest first. *)
Definition renders := list historyState.

Definition latest (past : renders) : historyState :=
  match past with st :: _ => st | [] => initialHistory end.

Definition act (past : renders) (a : historyAction) : renders :=
  match a with
  | Undo => handleUndo (latest past) :: past
  | Redo => handleRedo (latest past) :: past
  | Arrives rendersAgo output =>
      updateHistory (nth rendersAgo past (latest past)) output :: past
  | Reset => initialHistory :: past
  end.

Definition play (actions : list historyAction) : renders :=
  fold_left act actions [initialHistory].

(** The index is [-1] on an empty history and a position of the history
    otherwise. *)
Definition inRange (st : historyState) : Prop :=
  ((historyIndex st = -1)%Z /\ history st = [])
  \/ (0 <= historyIndex st < Z.of_nat (length (history st)))%Z.

(** *** Reusing an output: [dataUrlToImageFile] *)

(** [s.split(',')]. *)
Fixpoint splitComma (s : string) : list string :=
  match s with
  | EmptyString => [EmptyString]
  | String c rest =>
      if Ascii.eqb c "," then EmptyString :: splitComma rest
      else match splitComma rest with
           | piece :: pieces => String c piece :: pieces
           | [] => [String c EmptyString]
           end
  end.

(** What [(.*?);] matches at the start of [s]: the text before the
    first semicolon, if no line ends before it. *)
Fixpoint lazyToSemicolon (s : string) : option string :=
  match s with
  | EmptyString => None
  | String c rest =>
      if Ascii.eqb c ";" then Some EmptyString
      else if Retry.isLineTerminator c then None
      else match lazyToSemicolon rest with
           | Some group => Some (String c group)
           | None => None
           end
  end.

(** The first group of [s.match(/:(.*?);/)], or [None] for [null]. *)
Fixpoint matchMimeType (s : string) : option string :=
  match s with
  | EmptyString => None
  | String c rest =>
      if Ascii.eqb c ":" then
        match lazyToSemicolon rest with
        | Some group => Some group
        | None => matchMimeType rest
        end
      else matchMimeType rest
  end.

(** [dataUrlToImageFile(dataUrl)]; [None] is [null], with the error
    message set. *)
Definition dataUrlToImageFile (dataUrl : string) : option Prompt.ImageFile :=
  let dataUrlParts := splitComma dataUrl in
  match matchMimeType (nth 0 dataUrlParts EmptyString),
        nth_error dataUrlParts 1 with
  | Some mimeType, Some base64 =>
      if nonEmpty base64
      then Some (Prompt.mkImageFile base64 mimeType dataUrl)
      else None
  | _, _ => None
  end.

(** No character of the string is [c]. *)
Fixpoint without (c : ascii) (s : string) : bool :=
  match s with
  | EmptyString => true
  | String c' rest => andb (negb (Ascii.eqb c' c)) (without c rest)
  end.

(** A MIME type that the data URI can carry as it is: no comma, no
    semicolon, no line break. *)
Definition mimeToken (s : string) : bool :=
  andb (without "," s)
    (andb (without ";" s) (andb (without "010" s) (without "013" s))).

(** *** The selected effects and the style prompt *)

(** [selectedEffectsByCategory]: the properties of the object in the
    order in which they were added, which is the order of
    [Object.values] -- for property names that an object treats like
    any other.  Two kinds of names are not of that kind: [__proto__],
    to which the assignment of a string stores nothing, and the names
    written in digits, which [Object.values] lists before the others. *)
Definition selection := list (string * string).

Definition isDigit (c : ascii) : bool :=
  andb (Nat.leb 48 (nat_of_ascii c)) (Nat.leb (nat_of_ascii c) 57).

Fixpoint allDigits (s : string) : bool :=
  match s with
  | EmptyString => true
  | String c rest => andb (isDigit c) (allDigits rest)
  end.

(** A property name of the kind the model covers; the category names
    of [effects.ts] are such names. *)
Definition ordinaryKey (k : string) : bool :=
  andb (negb (String.eqb k "__proto__"))
       (negb (andb (nonEmpty k) (allDigits k))).

Fixpoint deleteKey (k : string) (sel : selection) : selection :=
  match sel with
  | [] => []
  | (k', v) :: rest =>
      if String.eqb k k' then deleteKey k rest else (k', v) :: deleteKey k rest
  end.

Fixpoint assignKey (k v : string) (sel : selection) : selection :=
  match sel with
  | [] => [(k, v)]
  | (k', v') :: rest =>
      if String.eqb k k' then (k', v) :: rest
      else (k', v') :: assignKey k v rest
  end.

Definition handleSelectedEffectChange (categoryName effect : string)
  (prev : selection) : selection :=
  if String.eqb effect "None" then deleteKey categoryName prev
  else assignKey categoryName effect prev.

(** [Object.values(selectedEffectsByCategory).filter(Boolean).join(' & ')],
    the [stylePrompt] of [handleGenerate]. *)
Definition stylePromptOf (sel : selection) : string :=
  join " & " (filter nonEmpty (map snd sel)).

Definition lookupKey (k : string) (sel : selection) : option string :=
  match find (fun kv => String.eqb k (fst kv)) sel with
  | Some kv => Some (snd kv)
  | None => None
  end.

(** Calls of [handleSelectedEffectChange], each with its category and
    its effect, in the order of the clicks. *)
Definition applyChanges (changes : list (string * string))
  (sel : selection) : selection :=
  fold_left (fun s ce => handleSelectedEffectChange (fst ce) (snd ce) s)
    changes sel.

(** The effect of the last change made to a category. *)
Fixpoint lastChange (categoryName : string)
  (changes : list (string * string)) : option string :=
  match changes with
  | [] => None
  | (c, e) :: later =>
      match lastChange categoryName later with
      | Some e' => Some e'
      | None => if String.eqb categoryName c then Some e else None
      end
  end.

(** The selection has one property per category, and none of them
    stores 'None'. *)
Definition tidy (sel : selection) : Prop :=
  NoDup (map fst sel) /\ ~ In "None" (map snd sel).

(** *** Upload: the size computed by [resizeImage] *)

Definition MAX_DIMENSION : Z := 1024.

(** [newWidth] and [newHeight] for an image of [width] by [height]
    pixels, or [None] when the image is passed on as it is. The
    quotients are the exact ones; a canvas takes their integer part,
    which for pixel counts is also the integer part of the rounded
    quotient of the doubles. *)
Definition resizedSize (width height : Z) : option (Q * Q) :=
  if andb (width <=? MAX_DIMENSION)%Z (height <=? MAX_DIMENSION)%Z then None
  else if (height <? width)%Z
       then Some (inject_Z MAX_DIMENSION,
                  Qdiv (inject_Z (height * MAX_DIMENSION)) (inject_Z width))
       else Some (Qdiv (inject_Z (width * MAX_DIMENSION)) (inject_Z height),
                  inject_Z MAX_DIMENSION).

(** [canvas.width = x] for a non-negative [x]. *)
Definition canvasSide (x : Q) : Z := Qfloor x.

End App.

(* ===================================================================== *)
(** * Properties *)
(* ===================================================================== *)

(** ** Strings *)

Module JsFacts.
Import Js.
Local Open Scope string_scope.

Lemma prefix_app (a b : string) : String.prefix a (a ++ b) = true.
Proof.
  induction a as [|c a IH]; simpl.
  - destruct b; reflexivity.
  - destruct (ascii_dec c c) as [_|n]; [exact IH | now elim n].
Qed.

Lemma app_assoc (a b c : string) : (a ++ b) ++ c = a ++ (b ++ c).
Proof. induction a as [|x a IH]; simpl; [reflexivity | now rewrite IH]. Qed.

Lemma includes_unfold (s sub : string) :
  includes s sub
  = if String.prefix sub s then true
    else match s with
         | EmptyString => false
         | String _ s' => includes s' sub
         end.
Proof. destruct s; reflexivity. Qed.

Lemma includes_prefix (s sub : string) :
  String.prefix sub s = true -> includes s sub = true.
Proof. intros H. now rewrite includes_unfold, H. Qed.


Lemma includes_cons (c : ascii) (s sub : string) :
  includes s sub = true -> includes (String c s) sub = true.
Proof.
  intros H. rewrite includes_unfold.
  destruct (String.prefix sub (String c s)); [reflexivity | exact H].
Qed.

Lemma includes_app_r (a s sub : string) :
  includes s sub = true -> includes (a ++ s) sub = true.
Proof.
  intros H. induction a as [|c a IH]; simpl append.
  - exact H.
  - now apply includes_cons.
Qed.

Lemma prefix_app_l (sub s b : string) :
  String.prefix sub s = true -> String.prefix sub (s ++ b) = true.
Proof.
  revert s. induction sub as [|c sub IH]; intros s H.
  - destruct (s ++ b); reflexivity.
  - destruct s as [|d s]; simpl in H; [discriminate|].
    simpl. destruct (ascii_dec c d); [now apply IH | discriminate].
Qed.

Lemma includes_app_l (s b sub : string) :
  includes s sub = true -> includes (s ++ b) sub = true.
Proof.
  induction s as [|c s IH]; intros H; rewrite includes_unfold in H.
  - destruct (String.prefix sub EmptyString) eqn:P; [|discriminate].
    apply includes_prefix. now apply prefix_app_l.
  - destruct (String.prefix sub (String c s)) eqn:P.
    + apply includes_prefix. now apply prefix_app_l.
    + simpl append. apply includes_cons, IH, H.
Qed.


Lemma includes_join (sep : string) (l : list string) (x sub : string) :
  In x l -> includes x sub = true -> includes (join sep l) sub = true.
Proof.
  induction l as [|y l IH]; intros HIn Hx; [now elim HIn|].
  destruct l as [|z l].
  - destruct HIn as [->|[]]. exact Hx.
  - change (join sep (y :: z :: l)) with (y ++ sep ++ join sep (z :: l)).
    destruct HIn as [->|HIn].
    + now apply includes_app_l.
    + apply includes_app_r, includes_app_r, IH; assumption.
Qed.

End JsFacts.

(** ** Retry policy *)

Module RetryFacts.
Import Js Retry Scenarios.
Local Open Scope nat_scope.

Section Runs.

Variable JSON_parse : string -> result jsval.
Variable T : Type.
Variable apiCall : nat -> result T.
Variable jitter : nat -> Q.
Variable maxRetries : nat.
Variables initialDelay backoffFactor : Q.

Let loop := retryLoop JSON_parse apiCall jitter maxRetries initialDelay
              backoffFactor.

(** An attempt that fails with anything but a rate-limit error ends the
    run. *)
Lemma retryLoop_rethrow (remaining attempt : nat) (last : option thrown)
  (e : thrown) :
  apiCall attempt = Throw e ->
  isRateLimitError JSON_parse e = false ->
  loop (S remaining) attempt last = ([Call attempt], Throw e).
Proof.
  intros Hcall Hrl. unfold loop. simpl. now rewrite Hcall, Hrl.
Qed.

(** A rate-limit failure of the last attempt ends the run with the
    replacement message. *)
Lemma retryLoop_exhausted (remaining : nat) (last : option thrown) :
  0 < maxRetries ->
  rateLimited JSON_parse (apiCall (maxRetries - 1)) = true ->
  loop (S remaining) (maxRetries - 1) last
  = ([Call (maxRetries - 1)], Throw (ErrorObj unavailableMessage)).
Proof.
  intros Hpos Hrl. unfold loop. simpl.
  destruct (apiCall (maxRetries - 1)) as [v|e]; simpl in Hrl; [discriminate|].
  now rewrite Hrl, Nat.eqb_refl.
Qed.

(** [k] rate-limit failures in a row, none of them in the last attempt,
    are each followed by a back-off and the next attempt. *)
Lemma retryLoop_retries (k : nat) :
  forall (remaining attempt : nat) (last : option thrown),
    attempt + k < maxRetries ->
    (forall i, i < k -> rateLimited JSON_parse (apiCall (attempt + i)) = true) ->
    exists last',
      loop (k + remaining) attempt last
      = (retriedFrom jitter initialDelay backoffFactor attempt k
           ++ fst (loop remaining (attempt + k) last'),
         snd (loop remaining (attempt + k) last')).
Proof.
  induction k as [|k IH]; intros remaining attempt last Hlt Hrl.
  - exists last. rewrite Nat.add_0_r. simpl.
    now destruct (loop remaining attempt last).
  - pose proof (Hrl 0 (Nat.lt_0_succ k)) as H0. rewrite Nat.add_0_r in H0.
    destruct (apiCall attempt) as [v|e] eqn:Hcall; simpl in H0; [discriminate|].
    destruct (IH remaining (S attempt) (Some e)) as [last' Hrec].
    + lia.
    + intros i Hi. replace (S attempt + i) with (attempt + S i) by lia.
      apply Hrl. lia.
    + exists last'. unfold loop in *. simpl. rewrite Hcall, H0.
      replace (attempt =? maxRetries - 1) with false
        by (symmetry; apply Nat.eqb_neq; lia).
      rewrite Hrec. replace (S attempt + k) with (attempt + S k) by lia.
      reflexivity.
Qed.

End Runs.

(** C3, as amended. Once the attempts before attempt [k] have each
    failed with a rate-limit error, a failure of attempt [k] that
    [isRateLimitError] does not classify as one -- no structured 429 or
    RESOURCE_EXHAUSTED, none of the substrings 429, RESOURCE_EXHAUSTED
    and "rate limit", or a thrown value that is not an [Error] -- is
    thrown again as it is: the run ends with that attempt, with no
    back-off and no attempt after it. *)
Theorem withRetry_rethrows_unclassified
  (JSON_parse : string -> result jsval) (T : Type)
  (apiCall : nat -> result T) (jitter : nat -> Q) (maxRetries : nat)
  (initialDelay backoffFactor : Q) (k : nat) (e : thrown) :
  k < maxRetries ->
  (forall i, i < k -> rateLimited JSON_parse (apiCall i) = true) ->
  apiCall k = Throw e ->
  isRateLimitError JSON_parse e = false ->
  withRetry JSON_parse apiCall jitter maxRetries initialDelay backoffFactor
  = (retriedFrom jitter initialDelay backoffFactor 0 k ++ [Call k], Throw e).
Proof.
  intros Hk Hbefore Hcall Hrl. unfold withRetry.
  destruct (retryLoop_retries JSON_parse apiCall jitter initialDelay
              backoffFactor (maxRetries := maxRetries) (k := k)
              (maxRetries - k) 0 None) as [last' Hrun].
  - lia.
  - exact Hbefore.
  - replace (k + (maxRetries - k)) with maxRetries in Hrun by lia.
    rewrite Hrun. simpl.
    destruct (maxRetries - k) as [|r] eqn:Hr; [lia|].
    now rewrite (retryLoop_rethrow JSON_parse apiCall jitter maxRetries
                   initialDelay backoffFactor r k last' Hcall Hrl).
Qed.

(** C3 on a network error that follows two rate-limit failures. *)
Lemma withRetry_rethrows_unclassified_witness :
  withRetry rejectingParser twoLimitsThenNetworkError (fun _ => 0%Q) 5
    3000%Q 2%Q
  = (retriedFrom (fun _ => 0%Q) 3000%Q 2%Q 0 2 ++ [Call 2],
     Throw (ErrorObj "Failed to fetch")).
Proof.
  apply (@withRetry_rethrows_unclassified rejectingParser unit
           twoLimitsThenNetworkError (fun _ => 0%Q) 5 3000%Q 2%Q 2
           (ErrorObj "Failed to fetch")).
  - lia.
  - intros i Hi.
    destruct i as [|[|i]]; [reflexivity | reflexivity | lia].
  - reflexivity.
  - reflexivity.
Defined.

(** C3, counterexample. A failure whose message carries neither 429 nor
    RESOURCE_EXHAUSTED, structured or as a substring, but the words
    "rate limit", is not thrown again after the first attempt: it is
    retried until the five attempts are used up. *)
Lemma rate_limit_wording_is_retried :
  documentedNotRateLimit rejectingParser
    (ErrorObj "rate limit reached, slow down") = true
  /\ withRetry rejectingParser
       (fun _ => @Throw unit (ErrorObj "rate limit reached, slow down"))
       (fun _ => 0%Q) 5 3000%Q 2%Q
     = ([Call 0; Sleep (3000 # 1); Call 1; Sleep (6000 # 1);
         Call 2; Sleep (12000 # 1); Call 3; Sleep (24000 # 1); Call 4],
        Throw (ErrorObj unavailableMessage)).
Proof. split; vm_compute; reflexivity. Qed.

(** C4. With [maxRetries = 5], when each of the five attempts fails with
    a rate-limit error the wrapped call is invoked exactly five times,
    the first four each followed by a back-off, and the run ends with
    the fifth: [withRetry] throws the "temporarily unavailable" error in
    place of the error of the service. *)
Theorem withRetry_five_rate_limits
  (JSON_parse : string -> result jsval) (T : Type)
  (apiCall : nat -> result T) (jitter : nat -> Q)
  (initialDelay backoffFactor : Q) :
  (forall i, i < 5 -> rateLimited JSON_parse (apiCall i) = true) ->
  let run := withRetry JSON_parse apiCall jitter 5 initialDelay
               backoffFactor in
  run = (retriedFrom jitter initialDelay backoffFactor 0 4 ++ [Call 4],
         Throw (ErrorObj unavailableMessage))
  /\ calls (fst run) = 5
  /\ sleeps (fst run) = 4.
Proof.
  intros Hall run.
  assert (Hrun : run
                 = (retriedFrom jitter initialDelay backoffFactor 0 4
                      ++ [Call 4],
                    Throw (ErrorObj unavailableMessage))).
  { unfold run, withRetry.
    destruct (retryLoop_retries JSON_parse apiCall jitter initialDelay
                backoffFactor (maxRetries := 5) (k := 4) 1 0 None)
      as [last' Hrun].
    - lia.
    - intros i Hi. apply Hall. lia.
    - change (4 + 1) with 5 in Hrun. rewrite Hrun.
      change (0 + 4) with (5 - 1).
      rewrite (retryLoop_exhausted JSON_parse apiCall jitter
                 initialDelay backoffFactor (maxRetries := 5) 0 last').
      + reflexivity.
      + lia.
      + apply Hall. simpl. lia. }
  rewrite Hrun. repeat split.
Qed.

(** C4 on a service that answers 429 every time. *)
Lemma withRetry_five_rate_limits_witness :
  let run := withRetry rejectingParser
               (fun _ => @Throw unit (ErrorObj "got status: 429"))
               (fun _ => 0%Q) 5 3000%Q 2%Q in
  run = (retriedFrom (fun _ => 0%Q) 3000%Q 2%Q 0 4 ++ [Call 4],
         Throw (ErrorObj unavailableMessage))
  /\ calls (fst run) = 5
  /\ sleeps (fst run) = 4.
Proof.
  apply (@withRetry_five_rate_limits rejectingParser unit
           (fun _ => @Throw unit (ErrorObj "got status: 429"))
           (fun _ => 0%Q) 3000%Q 2%Q).
  intros i Hi. reflexivity.
Defined.

End RetryFacts.

(** ** Serial request queue *)

Module QueueFacts.
Import Queue Scenarios.
Local Open Scope nat_scope.

Lemma serial_S (k : nat) :
  serial (S k) = serial k ++ [Started k; Settled k].
Proof.
  unfold serial. rewrite seq_S, flat_map_app. simpl. reflexivity.
Qed.

Lemma serial_app (a b : nat) :
  serial (a + b)
  = serial a ++ flat_map (fun t => [Started t; Settled t]) (seq a b).
Proof. unfold serial. now rewrite seq_app, flat_map_app. Qed.

Lemma invariant_initial : invariant 0 initial.
Proof. split; reflexivity. Qed.

Lemma invariant_processQueue (k : nat) (s : state) :
  invariant k s -> invariant k (processQueue s).
Proof.
  intros [Hm Hf Hq Hs]. unfold processQueue.
  destruct (isProcessing s) eqn:Hp; simpl.
  - split; simpl; rewrite ?Hp; assumption.
  - destruct (requestQueue s) as [|t rest] eqn:Hrq; simpl.
    + split; simpl; rewrite ?Hp, ?Hrq; assumption.
    + simpl in Hq. injection Hq as Ht Hrest. subst t.
      split; simpl.
      * unfold marks in *. simpl. rewrite map_app, Hm. simpl.
        now rewrite app_nil_r.
      * now rewrite Hf.
      * exact Hrest.
      * rewrite Hs. simpl. lia.
Qed.

Lemma invariant_enqueue (k : nat) (s : state) :
  invariant k s -> invariant k (enqueue s).
Proof.
  intros [Hm Hf Hq Hs]. apply invariant_processQueue.
  split; simpl; try assumption.
  - rewrite length_app. simpl. rewrite Nat.add_1_r, seq_S, <- Hq.
    now rewrite <- Hs.
  - rewrite length_app. simpl. lia.
Qed.

Lemma invariant_advance (k : nat) (now : N) (s : state) :
  invariant k s -> invariant k (advance now s).
Proof. intros [Hm Hf Hq Hs]. split; assumption. Qed.

Lemma memb_In (t : task) (l : list task) : memb t l = true -> In t l.
Proof.
  unfold memb. rewrite existsb_exists. intros [x [Hin Heq]].
  apply Nat.eqb_eq in Heq. now subst.
Qed.

Lemma invariant_afterAwait (k : nat) (t : task) (s : state) :
  invariant k s -> In t (inFlight s) -> invariant (S k) (afterAwait t s).
Proof.
  intros [Hm Hf Hq Hs] Hin.
  destruct (isProcessing s) eqn:Hp; rewrite Hf in Hin; [|now elim Hin].
  destruct Hin as [<-|[]].
  split.
  - unfold marks in *. cbn [afterAwait journal isProcessing].
    rewrite map_app, Hm, serial_S, app_nil_r, <- app_assoc. reflexivity.
  - cbn [afterAwait inFlight isProcessing]. rewrite Hf. simpl.
    destruct (Nat.eq_dec k k); [reflexivity | congruence].
  - exact Hq.
  - exact Hs.
Qed.

Lemma invariant_step (k : nat) (s s' : state) (e : event) :
  invariant k s -> step s e = Some s' -> exists k', invariant k' s'.
Proof.
  intros Hinv Hstep. destruct e as [now|now t|now]; simpl in Hstep.
  - destruct (clock s <=? now)%N; [|discriminate].
    injection Hstep as <-. exists k.
    now apply invariant_enqueue, invariant_advance.
  - destruct (clock s <=? now)%N; simpl in Hstep; [|discriminate].
    destruct (memb t (inFlight s)) eqn:Hmem; [|discriminate].
    injection Hstep as <-. exists (S k).
    apply invariant_afterAwait.
    + now apply invariant_advance.
    + simpl. now apply memb_In.
  - destruct (timers s) as [|due rest]; [discriminate|].
    destruct (andb (clock s <=? now)%N (due <=? now)%N); [|discriminate].
    injection Hstep as <-. exists k.
    apply invariant_processQueue.
    destruct Hinv as [Hm Hf Hq Hs]. split; assumption.
Qed.

Lemma invariant_run (es : list event) :
  forall (k : nat) (s s' : state),
    invariant k s -> run s es = Some s' -> exists k', invariant k' s'.
Proof.
  induction es as [|e es IH]; intros k s s' Hinv Hrun; simpl in Hrun.
  - injection Hrun as <-. now exists k.
  - destruct (step s e) as [s1|] eqn:Hstep; [|discriminate].
    destruct (@invariant_step k s s1 e Hinv Hstep) as [k1 Hinv1].
    exact (IH k1 s1 s' Hinv1 Hrun).
Qed.

(** Where a serial journal can be cut: before a start, with every
    earlier task done, or before the settlement of the task that has
    just started. *)
Lemma serial_cut (n : nat) :
  forall (before after : list mark) (x : mark),
    serial n = before ++ x :: after ->
    exists m, m < n /\
      ((before = serial m /\ x = Started m)
       \/ (before = serial m ++ [Started m] /\ x = Settled m)).
Proof.
  induction n as [|n IH]; intros before after x Heq.
  - destruct before; discriminate.
  - rewrite serial_S in Heq.
    apply app_eq_app in Heq. destruct Heq as [l [[H1 H2]|[H1 H2]]].
    + destruct l as [|y l].
      * rewrite app_nil_r in H1. simpl in H2. injection H2 as -> _.
        exists n. split; [lia|]. left. now split.
      * simpl in H2. injection H2 as <- _.
        destruct (IH _ _ _ H1) as [m [Hm Hcase]].
        exists m. split; [lia | exact Hcase].
    + destruct l as [|y [|z [|w l]]]; simpl in H2.
      * injection H2 as <- _. rewrite app_nil_r in H1.
        exists n. split; [lia|]. left. now split.
      * injection H2 as <- <- _.
        exists n. split; [lia|]. right. now split.
      * discriminate.
      * discriminate.
Qed.

Lemma starts_serial (k : nat) : starts (serial k) = k.
Proof.
  induction k as [|k IH]; [reflexivity|].
  rewrite serial_S. unfold starts in *. rewrite filter_app, length_app, IH.
  simpl. lia.
Qed.

Lemma settlements_serial (k : nat) : settlements (serial k) = k.
Proof.
  induction k as [|k IH]; [reflexivity|].
  rewrite serial_S. unfold settlements in *.
  rewrite filter_app, length_app, IH. simpl. lia.
Qed.

(** The journal of a state that satisfies the invariant begins a serial
    journal. *)
Lemma marks_extend (k : nat) (s : state) :
  invariant k s -> exists rest, serial (S k) = marks s ++ rest.
Proof.
  intros [Hm _ _ _]. rewrite Hm, serial_S.
  destruct (isProcessing s).
  - exists [Settled k]. now rewrite <- app_assoc.
  - exists [Started k; Settled k]. now rewrite app_nil_r.
Qed.

(** C1. Whatever the callers, the units of work and the timers do, at
    every moment at most one unit of work is in flight -- in the state
    and at every point of the journal -- and before a task starts, every
    task enqueued before it has started and has settled: tasks start in
    the order of their [enqueue] calls, one after the other. A unit of
    work is the whole promise a task awaits, so for the operations of
    this service all attempts of [withRetry]. *)
Theorem serial_queue_fifo_single_flight (es : list event) (s : state) :
  run initial es = Some s ->
  length (inFlight s) <= 1
  /\ (forall before after : list mark,
        marks s = before ++ after ->
        starts before <= settlements before + 1)
  /\ (forall (j1 j2 : task) (before after : list mark),
        j1 < j2 ->
        marks s = before ++ Started j2 :: after ->
        exists a b c, before = a ++ Started j1 :: b ++ Settled j1 :: c).
Proof.
  intros Hrun.
  destruct (@invariant_run es 0 initial s invariant_initial Hrun) as [k Hinv].
  destruct (@marks_extend k s Hinv) as [rest Hext].
  split; [|split].
  - rewrite (inv_inFlight Hinv). destruct (isProcessing s); simpl; lia.
  - intros before after Hcut. rewrite Hcut, <- app_assoc in Hext.
    destruct (after ++ rest) as [|x tail] eqn:Htail.
    + rewrite app_nil_r in Hext. rewrite <- Hext.
      rewrite starts_serial, settlements_serial. lia.
    + destruct (serial_cut _ _ _ _ Hext) as [m [_ [[-> _]|[-> _]]]].
      * rewrite starts_serial, settlements_serial. lia.
      * unfold starts, settlements.
        rewrite !filter_app, !length_app.
        fold (starts (serial m)). fold (settlements (serial m)).
        rewrite starts_serial, settlements_serial. simpl. lia.
  - intros j1 j2 before after Hlt Hcut.
    rewrite Hcut, <- app_assoc in Hext. simpl in Hext.
    destruct (serial_cut _ _ _ _ Hext) as [m [_ [[-> Hx]|[_ Hx]]]];
      [|discriminate].
    injection Hx as ->.
    replace m with (j1 + S (m - S j1)) by lia.
    rewrite serial_app. simpl.
    exists (serial j1), [],
      (flat_map (fun t => [Started t; Settled t]) (seq (S j1) (m - S j1))).
    reflexivity.
Qed.

(** C1 on three callers. *)
Lemma serial_queue_fifo_single_flight_witness :
  exists s,
    run initial threeCallers = Some s
    /\ marks s = [Started 0; Settled 0; Started 1; Settled 1; Started 2]
    /\ length (inFlight s) <= 1
    /\ (forall before after : list mark,
          marks s = before ++ after ->
          starts before <= settlements before + 1)
    /\ (forall (j1 j2 : task) (before after : list mark),
          j1 < j2 ->
          marks s = before ++ Started j2 :: after ->
          exists a b c, before = a ++ Started j1 :: b ++ Settled j1 :: c).
Proof.
  eexists. split; [vm_compute; reflexivity|]. split; [reflexivity|].
  apply (@serial_queue_fifo_single_flight threeCallers).
  vm_compute. reflexivity.
Defined.

(** A call of [enqueue] that finds the queue idle starts its unit of work
    at once, whatever timers are pending. *)
Lemma enqueue_on_idle_queue_starts (s : state) :
  isProcessing s = false ->
  requestQueue s = [] ->
  journal (enqueue s) = journal s ++ [(clock s, Started (submitted s))]
  /\ timers (enqueue s) = timers s.
Proof.
  intros Hp Hq. unfold enqueue, processQueue. simpl.
  rewrite Hp, Hq. simpl. now split.
Qed.

(** C2, the run that breaks it. The first unit of work settles at
    100 ms; a call of [enqueue] at 200 ms finds [isProcessing] already
    false and starts its unit of work at once, 100 ms after the
    settlement, while the timer of the cool-down, due at 1100 ms, is
    still pending. *)
Lemma enqueue_during_cool_down_starts_at_once :
  option_map (fun s => (journal s, timers s, coolDownKept (journal s)))
    (run initial [Enqueue 0%N; Settle 100%N 0; Enqueue 200%N])
  = Some ([(0%N, Started 0); (100%N, Settled 0); (200%N, Started 1)],
          [1100%N], false).
Proof. reflexivity. Qed.

(** When the next task is already waiting and nobody calls [enqueue]
    during the cool-down, it starts when the timer fires. *)
Lemma waiting_task_starts_with_the_timer :
  option_map (fun s => (journal s, coolDownKept (journal s)))
    (run initial threeCallers)
  = Some ([(0%N, Started 0); (900%N, Settled 0); (1900%N, Started 1);
           (6400%N, Settled 1); (7400%N, Started 2)], true).
Proof. vm_compute. reflexivity. Qed.

End QueueFacts.

(** ** Prompt assembly *)

Module PromptFacts.
Import Js JsFacts Prompt Scenarios.
Local Open Scope string_scope.







(** The camera section is part of every sectioned prompt: the entry for
    the colour temperature is always among the camera details. *)
Lemma cameraSection_always_emitted (p : GenerateStudioPhotoParams) :
  cameraSection p
  = [ nl ++ "**5. CAMERA & LENS SETTINGS**" ++ nl ++
      "- **CRITICAL:** Simulate a professional camera with these " ++
      "settings: " ++ join "; " (cameraDetails p) ++ "." ].
Proof.
  unfold cameraSection.
  assert (H : Nat.ltb 0 (length (cameraDetails p)) = true).
  { apply Nat.ltb_lt. unfold cameraDetails.
    rewrite !length_app. cbn [length]. lia. }
  now rewrite H.
Qed.

(** C7, as amended. The request with a subject image only yields four
    sections -- the master instruction, the subject section, the camera
    section with the colour temperature alone, the final output
    requirement -- and three parts: the prompt, the label of the subject
    image and that image, the only one. *)
Theorem subject_only_prompt (image : ImageFile) :
  let p := defaultParams image in
  instructionSet p
  = [masterPrompt; defaultSubjectSection; defaultCameraSection;
     finalOutputRequirements]
  /\ generateStudioPhoto_parts p
     = [TextPart (join nl (instructionSet p));
        TextPart "This is the [Subject] image:";
        fileToGenerativePart image]
  /\ images (generateStudioPhoto_parts p) = [fileToGenerativePart image].
Proof. split; [reflexivity | split; reflexivity]. Qed.

(** C7, counterexample. The prompt of that request has a camera & lens
    settings section; its instruction set has four entries, not three. *)
Lemma subject_only_prompt_has_camera_section :
  includes (synthesizedPrompt (defaultParams portrait))
    "**5. CAMERA & LENS SETTINGS**" = true
  /\ length (instructionSet (defaultParams portrait)) = 4%nat.
Proof. split; vm_compute; reflexivity. Qed.







End PromptFacts.

(** ** Response handling *)

Module ResponseFacts.
Import Js Response Scenarios.
Local Open Scope string_scope.

Lemma concatAll_app (a b : list string) :
  concatAll (a ++ b)%list = concatAll a ++ concatAll b.
Proof.
  induction a as [|x a IH]; simpl; [reflexivity|].
  unfold concatAll in *. simpl. now rewrite IH, JsFacts.app_assoc.
Qed.

Lemma append_empty_r (s : string) : s ++ "" = s.
Proof. induction s as [|c s IH]; simpl; [reflexivity | now rewrite IH]. Qed.

Lemma textBlocks_app (a b : list ResponsePart) :
  textBlocks (a ++ b)%list = (textBlocks a ++ textBlocks b)%list.
Proof. unfold textBlocks. apply flat_map_app. Qed.

(** The assigning loop leaves the last text block. *)
Lemma scanOverwrite_text (parts : list ResponsePart) :
  forall output : GeminiOutput,
    outputText (fold_left scanOverwrite parts output)
    = match lastText parts with
      | Some t => Some t
      | None => outputText output
      end.
Proof.
  induction parts as [|part parts IH] using rev_ind; intros output.
  - reflexivity.
  - rewrite fold_left_app. simpl. unfold lastText in *.
    rewrite textBlocks_app, rev_app_distr. unfold scanOverwrite at 1.
    unfold textBlocks at 1. simpl. unfold truthyStr.
    destruct (inlineData part) as [d|]; simpl.
    + apply IH.
    + destruct (text part) as [t|]; simpl; [|apply IH].
      destruct (nonEmpty t); simpl; [reflexivity | apply IH].
Qed.

(** The appending loop leaves all text blocks, one after the other. *)
Lemma scanConcat_text (parts : list ResponsePart) :
  forall output : GeminiOutput,
    outputText (fold_left scanConcat parts output)
    = match textBlocks parts with
      | [] => outputText output
      | blocks =>
          Some (orEmpty (outputText output) ++ concatAll blocks)
      end.
Proof.
  induction parts as [|part parts IH] using rev_ind; intros output.
  - reflexivity.
  - rewrite fold_left_app. simpl. rewrite textBlocks_app.
    unfold scanConcat at 1. unfold textBlocks at 2. simpl.
    unfold truthyStr.
    destruct (inlineData part) as [d|]; simpl.
    + rewrite app_nil_r. apply IH.
    + destruct (text part) as [t|]; simpl;
        [|rewrite app_nil_r; apply IH].
      destruct (nonEmpty t) eqn:Hne; simpl;
        [|rewrite app_nil_r; apply IH].
      rewrite IH.
      destruct (textBlocks parts) as [|b bs] eqn:Hb; simpl.
      * unfold orEmpty, concatAll. simpl.
        destruct (outputText output); simpl; now rewrite ?append_empty_r.
      * f_equal. change (b :: bs ++ [t])%list with ((b :: bs) ++ [t])%list.
        rewrite concatAll_app. unfold orEmpty.
        change (concatAll [t]) with (t ++ "").
        now rewrite append_empty_r, !JsFacts.app_assoc.
Qed.


Lemma rethrow_Ok (A : Type) (prefix : string) (r : result A) (a : A) :
  rethrow prefix r = Ok a -> r = Ok a.
Proof. destruct r; simpl; congruence. Qed.

Section ImageOperations.

Variable emptyMessage : string.
Variable safetyMessage : Candidate -> string.
Variable unexpectedMessage : string -> string.
Variable scan : GeminiOutput -> ResponsePart -> GeminiOutput.
Variable noImageMessage : string.
Variable wrapper : string.

Let operation :=
  imageOperation emptyMessage safetyMessage unexpectedMessage scan
    noImageMessage wrapper.

(** An image operation that returns has run its loop over the parts of
    the first candidate. *)
Lemma imageOperation_Ok (response : GenerateContentResponse)
  (output : GeminiOutput) :
  operation (Ok response) = Ok output ->
  output = fold_left scan (candidateParts response) emptyOutput.
Proof.
  unfold operation, imageOperation. intros H. apply rethrow_Ok in H.
  unfold interpretImage, candidateParts in *.
  destruct (firstCandidate response) as [c|]; [|discriminate].
  assert (Hx : extractOutput scan noImageMessage c = Ok output ->
               output = fold_left scan
                          match content c with
                          | Some parts => parts
                          | None => []
                          end emptyOutput).
  { unfold extractOutput, scanParts.
    destruct (content c); cbv zeta;
      match goal with
      | |- context [if ?b then _ else _] => destruct b
      end; intros E; inversion E; reflexivity. }
  destruct (finishReason c) as [reason|]; [|exact (Hx H)].
  destruct (andb (nonEmpty reason)
                 (negb (isOneOf ["STOP"; "MAX_TOKENS"] reason)));
    [|exact (Hx H)].
  destruct (isSafetyReason reason); discriminate.
Qed.

(** An image operation throws the safety message for a first candidate
    that was stopped for safety. *)
Lemma imageOperation_safety (response : GenerateContentResponse)
  (c : Candidate) (reason : string) :
  firstCandidate response = Some c ->
  finishReason c = Some reason ->
  isSafetyReason reason = true ->
  operation (Ok response) = Throw (ErrorObj (wrapper ++ safetyMessage c)).
Proof.
  intros Hc Hr Hs. unfold operation, imageOperation, interpretImage.
  rewrite Hc, Hr, Hs.
  assert (Hstop : andb (nonEmpty reason)
                       (negb (isOneOf ["STOP"; "MAX_TOKENS"] reason))
                  = true).
  { unfold isSafetyReason, isOneOf in Hs. simpl in Hs.
    rewrite orb_false_r in Hs. apply orb_true_iff in Hs.
    destruct Hs as [Hs|Hs]; apply String.eqb_eq in Hs; subst reason;
      reflexivity. }
  now rewrite Hstop.
Qed.

End ImageOperations.

(** C9, as amended. When an operation returns an output, [inpaintImage]
    and [manipulateScene] have kept the last text block of the first
    candidate, while [generateStudioPhoto] and [swapFace] have joined
    all its text blocks in order. *)
Theorem text_blocks_overwritten_or_concatenated
  (response : GenerateContentResponse) (output : GeminiOutput) :
  (inpaintImage_result (Ok response) = Ok output ->
   outputText output = lastText (candidateParts response))
  /\ (manipulateScene_result (Ok response) = Ok output ->
      outputText output = lastText (candidateParts response))
  /\ (generateStudioPhoto_result (Ok response) = Ok output ->
      outputText output = allText (candidateParts response))
  /\ (swapFace_result (Ok response) = Ok output ->
      outputText output = allText (candidateParts response)).
Proof.
  repeat split; intros H; apply imageOperation_Ok in H; subst output.
  - rewrite scanOverwrite_text. now destruct (lastText _).
  - rewrite scanOverwrite_text. now destruct (lastText _).
  - rewrite scanConcat_text. unfold allText. now destruct (textBlocks _).
  - rewrite scanConcat_text. unfold allText. now destruct (textBlocks _).
Qed.

(** C9 on a response with two text blocks. *)
Lemma text_blocks_overwritten_or_concatenated_witness :
  (outputText (mkOutput imageOfTwoTexts (Some "your image."))
   = lastText (candidateParts twoTextsAndImage)
   /\ outputText (mkOutput imageOfTwoTexts (Some "your image."))
      = lastText (candidateParts twoTextsAndImage))
  /\ (outputText (mkOutput imageOfTwoTexts (Some "Here is your image."))
      = allText (candidateParts twoTextsAndImage)
      /\ outputText (mkOutput imageOfTwoTexts (Some "Here is your image."))
         = allText (candidateParts twoTextsAndImage)).
Proof.
  destruct (@text_blocks_overwritten_or_concatenated twoTextsAndImage
              (mkOutput imageOfTwoTexts (Some "your image.")))
    as [Hinpaint [Hscene _]].
  destruct (@text_blocks_overwritten_or_concatenated twoTextsAndImage
              (mkOutput imageOfTwoTexts (Some "Here is your image.")))
    as [_ [_ [Hphoto Hswap]]].
  split; split.
  - apply Hinpaint. reflexivity.
  - apply Hscene. reflexivity.
  - apply Hphoto. reflexivity.
  - apply Hswap. reflexivity.
Defined.

(** C9, counterexample. [swapFace] does not overwrite: from two text
    blocks it returns both, not the last one. *)
Lemma swapFace_concatenates :
  swapFace_result (Ok twoTextsAndImage)
  = Ok (mkOutput imageOfTwoTexts (Some "Here is your image."))
  /\ lastText (candidateParts twoTextsAndImage) = Some "your image.".
Proof. split; reflexivity. Qed.


(** *** Safety stops *)

Lemma blockedList_none (c : Candidate) :
  safetyRatings c = None -> blockedList c = "unspecified".
Proof. intros H. unfold blockedList, blockedRatings. now rewrite H. Qed.

Lemma blockedList_nothing_blocked (c : Candidate)
  (ratings : list SafetyRating) :
  safetyRatings c = Some ratings ->
  filter blocked ratings = [] ->
  blockedList c = "unspecified".
Proof.
  intros H Hnone. unfold blockedList, blockedRatings. now rewrite H, Hnone.
Qed.

(** The four image operations and [describeImage] throw their safety
    message, with the list of blocked categories or "unspecified",
    whenever the first candidate was stopped for safety. *)
Lemma safety_stop_is_thrown (response : GenerateContentResponse)
  (c : Candidate) (reason : string) :
  firstCandidate response = Some c ->
  finishReason c = Some reason ->
  isSafetyReason reason = true ->
  generateStudioPhoto_result (Ok response)
  = Throw (ErrorObj
             ("An error occurred while communicating with the AI. Details: "
              ++ "Request blocked for safety reasons: " ++ blockedList c ++
              ". This can sometimes happen with portraits. Try using a " ++
              "different reference image or adjusting your text prompts."))
  /\ inpaintImage_result (Ok response)
     = Throw (ErrorObj
                ("An error occurred during in-painting. Details: "
                 ++ "In-painting request blocked for safety reasons: " ++
                 blockedList c ++
                 ". This can sometimes happen with portraits. Try using a " ++
                 "different reference image or adjusting your text prompts."))
  /\ swapFace_result (Ok response)
     = Throw (ErrorObj
                ("An error occurred while swapping the face. Details: "
                 ++ "Face swap request blocked for safety reasons: " ++
                 blockedList c ++
                 ". This can sometimes happen with portraits. Try using a " ++
                 "different reference image."))
  /\ manipulateScene_result (Ok response)
     = Throw (ErrorObj
                ("An error occurred during scene manipulation. Details: "
                 ++ "Request blocked for safety reasons: " ++ blockedList c ++
                 ". Please adjust your prompt or use a different image."))
  /\ describeImage_result (Ok response)
     = Throw (ErrorObj
                ("Failed to generate image description. Details: "
                 ++ "Image description blocked for safety reasons: " ++
                 blockedList c ++ ". Please use a different image.")).
Proof.
  intros Hc Hr Hs.
  split; [|split; [|split; [|split]]].
  1-4: unfold generateStudioPhoto_result, inpaintImage_result,
         swapFace_result, manipulateScene_result;
       rewrite (@imageOperation_safety _ _ _ _ _ _ response c reason
                  Hc Hr Hs);
       reflexivity.
  unfold describeImage_result, describeBlocked. rewrite Hc, Hr, Hs.
  assert (Hstop : andb (nonEmpty reason) (negb (String.eqb reason "STOP"))
                  = true).
  { unfold isSafetyReason, isOneOf in Hs. simpl in Hs.
    rewrite orb_false_r in Hs. apply orb_true_iff in Hs.
    destruct Hs as [Hs|Hs]; apply String.eqb_eq in Hs; subst reason;
      reflexivity. }
  now rewrite Hstop.
Qed.

(** C5, the operation that breaks it. [analyzeArtReference] never looks
    at the finish reason. For a first candidate stopped for [SAFETY] it
    returns the analysis when the response still carries the JSON text,
    and it throws the type error of [undefined.trim()] when it carries
    no text -- in neither case the safety message that [describeImage]
    throws for the same response. *)
Lemma analyzeArtReference_ignores_safety_stop :
  analyzeArtReference_result (parserOf [(analysisJson, analysisValue)])
    (Ok safetyStopWithText)
  = Ok analysisValue
  /\ analyzeArtReference_result (parserOf [(analysisJson, analysisValue)])
       (Ok safetyStopWithoutText)
     = Throw (ErrorObj
                ("Failed to analyze art reference. Details: "
                 ++ "Cannot read properties of undefined (reading 'trim')"))
  /\ describeImage_result (Ok safetyStopWithText)
     = Throw (ErrorObj
                ("Failed to generate image description. Details: "
                 ++ "Image description blocked for safety reasons: "
                 ++ "SEXUALLY_EXPLICIT. Please use a different image.")).
Proof. repeat split. Qed.

(** *** The lighting style of an analysis *)

Lemma assoc_setAssoc (k : string) (x : jsval) (props : list (string * jsval)) :
  assoc k (setAssoc k x props) = Some x.
Proof.
  induction props as [|[k' v] props IH]; simpl.
  - now rewrite String.eqb_refl.
  - destruct (String.eqb k k') eqn:E; simpl; rewrite E; [reflexivity | exact IH].
Qed.

Lemma isOneOf_In (l : list string) (x : string) :
  isOneOf l x = true -> In x l.
Proof.
  unfold isOneOf. rewrite existsb_exists. intros [y [Hin Heq]].
  apply String.eqb_eq in Heq. now subst.
Qed.

Lemma isLightingStyle_listed (v : option jsval) :
  isLightingStyle v = true ->
  exists style, v = Some (JStr style) /\ In style Prompt.LIGHTING_STYLES.
Proof.
  destruct v as [[| | |s| |]|]; try discriminate.
  unfold isLightingStyle. intros H.
  exists s. split; [reflexivity | now apply isOneOf_In].
Qed.

Lemma validateLightingStyle_Ok (parsed analysis : jsval) :
  validateLightingStyle parsed = Ok analysis ->
  (if isLightingStyle (getProp parsed "lightingStyle")
   then analysis = parsed
   else getProp analysis "lightingStyle" = Some (JStr "None"))
  /\ exists style,
       getProp analysis "lightingStyle" = Some (JStr style)
       /\ In style Prompt.LIGHTING_STYLES.
Proof.
  unfold validateLightingStyle. intros H.
  destruct (isLightingStyle (getProp parsed "lightingStyle")) eqn:Hl.
  - assert (analysis = parsed) as -> by (destruct parsed; congruence).
    split; [reflexivity | now apply isLightingStyle_listed].
  - assert (Hnone : getProp analysis "lightingStyle" = Some (JStr "None")).
    { destruct parsed; try discriminate; injection H as <-; simpl;
        apply assoc_setAssoc. }
    split; [exact Hnone|].
    exists "None". split; [exact Hnone | now left].
Qed.

(** C10. Whatever the service answers and however the text parses, an
    analysis that [analyzeArtReference] returns has a [lightingStyle]
    that is one of [LIGHTING_STYLES]: the parsed value when that one is
    listed, and ['None'] in its place when it is anything else. *)
Theorem analysis_lighting_style_is_listed
  (JSON_parse : string -> result jsval)
  (settled : result GenerateContentResponse) (analysis : jsval) :
  analyzeArtReference_result JSON_parse settled = Ok analysis ->
  exists response t parsed,
    settled = Ok response
    /\ responseText response = Some t
    /\ JSON_parse (trim t) = Ok parsed
    /\ (if isLightingStyle (getProp parsed "lightingStyle")
        then analysis = parsed
        else getProp analysis "lightingStyle" = Some (JStr "None"))
    /\ exists style,
         getProp analysis "lightingStyle" = Some (JStr style)
         /\ In style Prompt.LIGHTING_STYLES.
Proof.
  unfold analyzeArtReference_result. intros H. apply rethrow_Ok in H.
  destruct settled as [response|e]; [|discriminate].
  destruct (responseText response) as [t|] eqn:Ht; [|discriminate].
  destruct (JSON_parse (trim t)) as [parsed|e] eqn:Hp; [|discriminate].
  exists response, t, parsed.
  split; [reflexivity|]. split; [exact Ht|]. split; [exact Hp|].
  now apply validateLightingStyle_Ok.
Qed.

(** C10 on an answer that names the style "Moonlight". *)
Lemma analysis_lighting_style_is_listed_witness :
  exists response t parsed,
    Ok moonlitResponse = Ok response
    /\ responseText response = Some t
    /\ moonlitParser (trim t) = Ok parsed
    /\ (if isLightingStyle (getProp parsed "lightingStyle")
        then JObj [("lightingStyle", JStr "None")] = parsed
        else getProp (JObj [("lightingStyle", JStr "None")]) "lightingStyle"
             = Some (JStr "None"))
    /\ exists style,
         getProp (JObj [("lightingStyle", JStr "None")]) "lightingStyle"
         = Some (JStr style)
         /\ In style Prompt.LIGHTING_STYLES.
Proof.
  apply (@analysis_lighting_style_is_listed moonlitParser
           (Ok moonlitResponse) (JObj [("lightingStyle", JStr "None")])).
  vm_compute. reflexivity.
Defined.

End ResponseFacts.

(** ** Retry policy: attempts, back-off and outcomes *)

Module RetryOutcomes.
Import Js Retry RetryText RetryFacts.
Local Open Scope nat_scope.

Section Runs.

Variable JSON_parse : string -> result jsval.
Variable T : Type.
Variable apiCall : nat -> result T.
Variable jitter : nat -> Q.
Variable maxRetries : nat.
Variables initialDelay backoffFactor : Q.

Let loop := retryLoop JSON_parse apiCall jitter maxRetries initialDelay
              backoffFactor.

(** Neither replacement message is itself classified as a rate-limit
    error. *)
Lemma replacement_messages_unclassified :
  isRateLimitError JSON_parse (ErrorObj unavailableMessage) = false
  /\ isRateLimitError JSON_parse (ErrorObj unknownMessage) = false.
Proof. split; reflexivity. Qed.


Lemma retryLoop_throws_unclassified (remaining : nat) :
  forall (attempt : nat) (last : option thrown) (e : thrown),
    attempt + remaining = maxRetries ->
    (remaining = 0 -> last = None) ->
    snd (loop remaining attempt last) = Throw e ->
    isRateLimitError JSON_parse e = false.
Proof.
  induction remaining as [|r IH]; intros attempt last e Hsum Hlast Hthrow.
  - rewrite (Hlast eq_refl) in Hthrow. simpl in Hthrow.
    injection Hthrow as <-. apply replacement_messages_unclassified.
  - unfold loop in Hthrow. simpl in Hthrow.
    destruct (apiCall attempt) as [v|e0]; [discriminate|].
    destruct (isRateLimitError JSON_parse e0) eqn:Hrl.
    + destruct (Nat.eqb attempt (maxRetries - 1)) eqn:Hend.
      * simpl in Hthrow. injection Hthrow as <-.
        apply replacement_messages_unclassified.
      * apply Nat.eqb_neq in Hend. fold loop in Hthrow.
        destruct (loop r (S attempt) (Some e0)) as [acts res] eqn:Hrec.
        simpl in Hthrow. subst res.
        apply (IH (S attempt) (Some e0) e); [lia | lia |].
        now rewrite Hrec.
    + simpl in Hthrow. injection Hthrow as <-. exact Hrl.
Qed.

End Runs.


(** X2. An error that [withRetry] throws is never one that it classifies as
    a rate-limit error: such errors are either retried or replaced. *)
Theorem withRetry_never_throws_rate_limit
  (JSON_parse : string -> result jsval) (T : Type)
  (apiCall : nat -> result T) (jitter : nat -> Q) (maxRetries : nat)
  (initialDelay backoffFactor : Q) (e : thrown) :
  snd (withRetry JSON_parse apiCall jitter maxRetries initialDelay
         backoffFactor) = Throw e ->
  isRateLimitError JSON_parse e = false.
Proof.
  unfold withRetry. intros H.
  apply (@retryLoop_throws_unclassified JSON_parse T apiCall jitter
           maxRetries initialDelay backoffFactor maxRetries 0 None e);
    [reflexivity | reflexivity | exact H].
Qed.

Lemma withRetry_never_throws_rate_limit_witness :
  isRateLimitError rejectingParser (ErrorObj unavailableMessage) = false.
Proof.
  apply (@withRetry_never_throws_rate_limit rejectingParser unit
           (fun _ => Throw (ErrorObj "got status: 429")) (fun _ => 0%Q) 5
           3000%Q 2%Q (ErrorObj unavailableMessage)).
  vm_compute. reflexivity.
Defined.

(** X3. When the attempts before attempt [k] fail with rate-limit errors and
    attempt [k] succeeds, [withRetry] returns its value after exactly
    [k + 1] invocations and [k] back-offs. *)
Theorem withRetry_returns_first_success
  (JSON_parse : string -> result jsval) (T : Type)
  (apiCall : nat -> result T) (jitter : nat -> Q) (maxRetries : nat)
  (initialDelay backoffFactor : Q) (k : nat) (v : T) :
  k < maxRetries ->
  (forall i, i < k -> rateLimited JSON_parse (apiCall i) = true) ->
  apiCall k = Ok v ->
  withRetry JSON_parse apiCall jitter maxRetries initialDelay backoffFactor
  = (retriedFrom jitter initialDelay backoffFactor 0 k ++ [Call k], Ok v).
Proof.
  intros Hk Hbefore Hcall. unfold withRetry.
  destruct (retryLoop_retries JSON_parse apiCall jitter initialDelay
              backoffFactor (maxRetries := maxRetries) (k := k)
              (maxRetries - k) 0 None) as [last' Hrun].
  - lia.
  - exact Hbefore.
  - replace (k + (maxRetries - k)) with maxRetries in Hrun by lia.
    rewrite Hrun. simpl.
    destruct (maxRetries - k) as [|r] eqn:Hr; [lia|].
    simpl. now rewrite Hcall.
Qed.

Lemma withRetry_returns_first_success_witness :
  withRetry rejectingParser limitThenAnswer (fun _ => 250%Q) 5 3000%Q 2%Q
  = (retriedFrom (fun _ => 250%Q) 3000%Q 2%Q 0 1 ++ [Call 1],
     Ok "answer"%string).
Proof.
  apply (@withRetry_returns_first_success rejectingParser string
           limitThenAnswer (fun _ => 250%Q) 5 3000%Q 2%Q 1 "answer"%string).
  - lia.
  - intros i Hi. destruct i; [reflexivity | lia].
  - reflexivity.
Defined.


Lemma rounded_window (fl : Q -> Q) (B : Z) (x j : Q) :
  (forall x y : Q, (x <= y)%Q -> (fl x <= fl y)%Q) ->
  (forall n : Z, (0 <= n <= 2 ^ 53)%Z -> (fl (inject_Z n) == inject_Z n)%Q) ->
  (0 <= B)%Z -> (B + 1000 <= 2 ^ 53)%Z ->
  (x == inject_Z B + j)%Q -> (0 <= j)%Q -> (j <= 1000)%Q ->
  (inject_Z B <= fl x)%Q /\ (fl x <= inject_Z B + 1000)%Q.
Proof.
  intros Hm He HB0 HB Hx Hj0 Hj1. split.
  - rewrite <- (He B) by lia. apply Hm. rewrite Hx. lra.
  - assert (H : (fl x <= fl (inject_Z (B + 1000)))%Q).
    { apply Hm. rewrite Hx, inject_Z_plus.
      change (inject_Z 1000) with 1000%Q. lra. }
    rewrite He in H by lia. rewrite inject_Z_plus in H. exact H.
Qed.

Lemma nearestUnit_monotone (x y : Q) :
  (x <= y)%Q -> (nearestUnit x <= nearestUnit y)%Q.
Proof.
  intros H. unfold nearestUnit. rewrite <- Zle_Qle.
  apply Qfloor_resp_le. lra.
Qed.

Lemma nearestUnit_exact (n : Z) : (nearestUnit (inject_Z n) == inject_Z n)%Q.
Proof.
  unfold nearestUnit.
  replace (Qfloor (inject_Z n + (1 # 2))) with n; [reflexivity|].
  unfold Qfloor, Qplus, inject_Z. cbn [Qnum Qden].
  change (Z.pos (1 * 2)) with 2%Z.
  replace (n * 2 + 1 * 1)%Z with (1 + n * 2)%Z by lia.
  rewrite Z.div_add by lia. reflexivity.
Qed.

(** X4. The back-off as the call sites get it, with the defaults 3000
    and 2: after each of the attempts that can be followed by a
    back-off (0 to 3), for every jitter from 0 to 1000 and however the
    sum is rounded -- for every rounding that keeps the order and
    leaves the whole numbers up to 2^53 as they are, as the rounding to
    the nearest double does -- the delay lies between
    [3000 * 2 ^ attempt] and [3000 * 2 ^ attempt + 1000], both ends
    included, and is never longer than the delay after the next
    attempt. *)
Theorem default_backoff_window (fl : Q -> Q) (attempt : nat)
  (jitter jitter' : Q) :
  (forall x y : Q, (x <= y)%Q -> (fl x <= fl y)%Q) ->
  (forall n : Z, (0 <= n <= 2 ^ 53)%Z -> (fl (inject_Z n) == inject_Z n)%Q) ->
  attempt < 4 ->
  (0 <= jitter)%Q -> (jitter <= 1000)%Q ->
  (0 <= jitter')%Q -> (jitter' <= 1000)%Q ->
  (3000 * 2 ^ Z.of_nat attempt <= defaultDelay fl attempt jitter)%Q
  /\ (defaultDelay fl attempt jitter
      <= 3000 * 2 ^ Z.of_nat attempt + 1000)%Q
  /\ (defaultDelay fl attempt jitter
      <= defaultDelay fl (S attempt) jitter')%Q.
Proof.
  intros Hm He Ha Hj0 Hj1 Hj0' Hj1'.
  assert (Hw : forall (k : nat) (B : Z) (j : Q),
             (3000 * 2 ^ Z.of_nat k == inject_Z B)%Q ->
             (0 <= B)%Z -> (B + 1000 <= 2 ^ 53)%Z ->
             (0 <= j)%Q -> (j <= 1000)%Q ->
             (inject_Z B <= defaultDelay fl k j)%Q
             /\ (defaultDelay fl k j <= inject_Z B + 1000)%Q).
  { intros k B j Hb HB0 HB H0 H1.
    apply (@rounded_window fl B (backoffDelay 3000 2 k j) j);
      try assumption.
    unfold backoffDelay. rewrite Hb. reflexivity. }
  destruct attempt as [|[|[|[|attempt]]]]; [| | | |lia].
  - destruct (Hw 0 3000%Z jitter) as [L U];
      [reflexivity|lia|lia|assumption|assumption|].
    destruct (Hw 1 6000%Z jitter') as [L' U'];
      [reflexivity|lia|lia|assumption|assumption|].
    unfold inject_Z in *.
    assert (Hb : (3000 * 2 ^ Z.of_nat 0 == 3000)%Q) by reflexivity.
    rewrite Hb. repeat split; lra.
  - destruct (Hw 1 6000%Z jitter) as [L U];
      [reflexivity|lia|lia|assumption|assumption|].
    destruct (Hw 2 12000%Z jitter') as [L' U'];
      [reflexivity|lia|lia|assumption|assumption|].
    unfold inject_Z in *.
    assert (Hb : (3000 * 2 ^ Z.of_nat 1 == 6000)%Q) by reflexivity.
    rewrite Hb. repeat split; lra.
  - destruct (Hw 2 12000%Z jitter) as [L U];
      [reflexivity|lia|lia|assumption|assumption|].
    destruct (Hw 3 24000%Z jitter') as [L' U'];
      [reflexivity|lia|lia|assumption|assumption|].
    unfold inject_Z in *.
    assert (Hb : (3000 * 2 ^ Z.of_nat 2 == 12000)%Q) by reflexivity.
    rewrite Hb. repeat split; lra.
  - destruct (Hw 3 24000%Z jitter) as [L U];
      [reflexivity|lia|lia|assumption|assumption|].
    destruct (Hw 4 48000%Z jitter') as [L' U'];
      [reflexivity|lia|lia|assumption|assumption|].
    unfold inject_Z in *.
    assert (Hb : (3000 * 2 ^ Z.of_nat 3 == 24000)%Q) by reflexivity.
    rewrite Hb. repeat split; lra.
Qed.

Lemma default_backoff_window_witness :
  (3000 * 2 ^ Z.of_nat 0 <= defaultDelay nearestUnit 0 (9999 # 10))%Q
  /\ (defaultDelay nearestUnit 0 (9999 # 10)
      <= 3000 * 2 ^ Z.of_nat 0 + 1000)%Q
  /\ (defaultDelay nearestUnit 0 (9999 # 10)
      <= defaultDelay nearestUnit 1 0)%Q.
Proof.
  apply (@default_backoff_window nearestUnit 0 (9999 # 10) 0%Q).
  - exact nearestUnit_monotone.
  - intros n _. exact (nearestUnit_exact n).
  - lia.
  - unfold Qle; simpl; lia.
  - unfold Qle; simpl; lia.
  - unfold Qle; simpl; lia.
  - unfold Qle; simpl; lia.
Defined.

Lemma greedyToBrace_sound (s : string) :
  forall t : string,
    greedyToBrace s = Some t ->
    exists body rest,
      t = (body ++ "}")%string /\ s = (t ++ rest)%string
      /\ singleLine t = true.
Proof.
  induction s as [|c s IH]; intros t H; simpl in H; [discriminate|].
  destruct (isLineTerminator c) eqn:Hlt; [discriminate|].
  destruct (greedyToBrace s) as [t'|] eqn:Hg.
  - injection H as <-.
    destruct (IH t' eq_refl) as [body [rest [Ht [Hs Hl]]]].
    exists (String c body), rest. simpl. rewrite Hlt, Hl.
    repeat split; [now rewrite Ht | now rewrite <- Hs].
  - destruct (Ascii.eqb c "}") eqn:Hc; [|discriminate].
    injection H as <-. apply Ascii.eqb_eq in Hc. subst c.
    exists EmptyString, s. repeat split.
Qed.

(** X5. What [message.match(/{.*}/)] hands to [JSON.parse] is a piece of the
    message that starts with an opening brace, ends with a closing
    brace and stays on one line: a JSON body printed on several lines
    is never parsed as a whole. *)
Theorem matchBraces_single_line (message json : string) :
  matchBraces message = Some json ->
  exists before body after,
    message = (before ++ json ++ after)%string
    /\ json = ("{" ++ body ++ "}")%string
    /\ singleLine json = true.
Proof.
  revert json. induction message as [|c s IH]; intros json H; simpl in H;
    [discriminate|].
  assert (Hskip : matchBraces s = Some json ->
                  exists before body after,
                    String c s = (before ++ json ++ after)%string
                    /\ json = ("{" ++ body ++ "}")%string
                    /\ singleLine json = true).
  { intros Hs. destruct (IH json Hs) as [b [body [a [E1 [E2 E3]]]]].
    exists (String c b), body, a. simpl. now rewrite <- E1. }
  destruct (Ascii.eqb c "{") eqn:Hc; [|exact (Hskip H)].
  destruct (greedyToBrace s) as [t|] eqn:Hg; [|exact (Hskip H)].
  injection H as <-. apply Ascii.eqb_eq in Hc. subst c.
  destruct (greedyToBrace_sound s Hg) as [body [rest [Ht [Hs Hl]]]].
  exists EmptyString, body, rest. simpl. rewrite Hl.
  repeat split; [now rewrite <- Hs | now rewrite Ht].
Qed.

Lemma matchBraces_single_line_witness :
  exists before body after,
    prettyPrintedBody
    = (before ++ ("{" ++ dq ++ "status" ++ dq ++ ": " ++ dq ++ "UNAVAILABLE"
                  ++ dq ++ "}") ++ after)%string
    /\ ("{" ++ dq ++ "status" ++ dq ++ ": " ++ dq ++ "UNAVAILABLE" ++ dq
        ++ "}")%string
       = ("{" ++ body ++ "}")%string
    /\ singleLine ("{" ++ dq ++ "status" ++ dq ++ ": " ++ dq ++ "UNAVAILABLE"
                   ++ dq ++ "}") = true.
Proof.
  apply (@matchBraces_single_line prettyPrintedBody).
  vm_compute. reflexivity.
Defined.

End RetryOutcomes.

(** ** Serial request queue: no task lost, no stall *)

Module QueueLiveness.
Import Queue QueueBooks QueueFacts.
Local Open Scope nat_scope.

Lemma settled_serial (k : nat) :
  flat_map (fun m => match m with Settled t => [t] | Started _ => [] end)
    (serial k) = seq 0 k.
Proof.
  induction k as [|k IH]; [reflexivity|].
  rewrite serial_S, flat_map_app, IH, seq_S. reflexivity.
Qed.

(** X6. No task is lost, duplicated or reordered: the tasks enqueued so far
    are, in the order of their [enqueue] calls, the settled ones, then
    the one in flight if any, then the waiting ones. *)
Theorem every_task_accounted_for (es : list event) (s : state) :
  run initial es = Some s ->
  seq 0 (submitted s) = settledTasks s ++ inFlight s ++ requestQueue s.
Proof.
  intros Hrun.
  destruct (@invariant_run es 0 initial s invariant_initial Hrun)
    as [k [Hm Hf Hq Hs]].
  unfold settledTasks.
  remember (length (requestQueue s)) as n eqn:Hn.
  rewrite Hm, Hf, Hq, Hs, flat_map_app, settled_serial.
  destruct (isProcessing s); cbn [flat_map app]; rewrite app_nil_r.
  - change (k :: seq (S k) n) with (seq (0 + k) (S n)).
    rewrite <- seq_app. f_equal. lia.
  - change (seq k n) with (seq (0 + k) n). now rewrite <- seq_app.
Qed.

Lemma every_task_accounted_for_witness :
  seq 0 2 = [0] ++ [] ++ [1].
Proof.
  apply (@every_task_accounted_for secondWaits
           (mkState [1] false [] [1900%N] 900%N 2
              [(0%N, Started 0); (900%N, Settled 0)])).
  vm_compute. reflexivity.
Defined.

Lemma processQueue_busy_or_empty (s : state) :
  isProcessing (processQueue s) = true \/ requestQueue (processQueue s) = [].
Proof.
  unfold processQueue. destruct (isProcessing s) eqn:Hp; simpl.
  - now left.
  - destruct (requestQueue s) eqn:Hq; simpl; [now right | now left].
Qed.

Lemma timerArmed_step (s s' : state) (e : event) :
  step s e = Some s' -> timerArmed s'.
Proof.
  intros Hstep Hidle Hwait. destruct e as [now|now t|now]; simpl in Hstep.
  - destruct (clock s <=? now)%N; [|discriminate]. injection Hstep as <-.
    unfold enqueue in *.
    match goal with
    | H : isProcessing (processQueue ?x) = false |- _ =>
        destruct (processQueue_busy_or_empty x); congruence
    end.
  - destruct (andb _ _); [|discriminate]. injection Hstep as <-.
    simpl. now destruct (timers s).
  - destruct (timers s) as [|due rest]; [discriminate|].
    destruct (andb _ _); [|discriminate]. injection Hstep as <-.
    match goal with
    | H : isProcessing (processQueue ?x) = false |- _ =>
        destruct (processQueue_busy_or_empty x); congruence
    end.
Qed.

Lemma timerArmed_run (es : list event) :
  forall s s' : state, timerArmed s -> run s es = Some s' -> timerArmed s'.
Proof.
  induction es as [|e es IH]; intros s s' Harmed Hrun; simpl in Hrun.
  - now injection Hrun as <-.
  - destruct (step s e) as [s1|] eqn:Hstep; [|discriminate].
    exact (IH s1 s' (timerArmed_step s e Hstep) Hrun).
Qed.

(** X7. The queue never stalls: whenever a task waits while nothing is in
    flight, a cool-down timer is pending, and when it fires, at any time
    from its due time on, the waiting task at the head starts. *)
Theorem waiting_task_has_a_timer (es : list event) (s : state) (t : task)
  (waiting : list task) :
  run initial es = Some s ->
  isProcessing s = false ->
  requestQueue s = t :: waiting ->
  exists due later,
    timers s = due :: later
    /\ forall now : N,
         (clock s <=? now)%N = true -> (due <=? now)%N = true ->
         exists s',
           step s (Timer now) = Some s'
           /\ journal s' = journal s ++ [(now, Started t)]
           /\ inFlight s' = inFlight s ++ [t]
           /\ requestQueue s' = waiting.
Proof.
  intros Hrun Hidle Hq.
  assert (Harmed : timerArmed s).
  { apply (@timerArmed_run es initial s); [|exact Hrun].
    intros _ H. now elim H. }
  destruct (timers s) as [|due later] eqn:Ht.
  - exfalso. apply Harmed; [exact Hidle | now rewrite Hq | exact Ht].
  - exists due, later. split; [reflexivity|].
    intros now Hc Hd. simpl. rewrite Ht, Hc, Hd. simpl.
    eexists. split; [reflexivity|].
    unfold processQueue. simpl. rewrite Hidle, Hq. simpl.
    repeat split.
Qed.

Lemma waiting_task_has_a_timer_witness :
  exists due later,
    [1900%N] = due :: later
    /\ forall now : N,
         (900 <=? now)%N = true -> (due <=? now)%N = true ->
         exists s',
           step (mkState [1] false [] [1900%N] 900%N 2
                   [(0%N, Started 0); (900%N, Settled 0)]) (Timer now)
           = Some s'
           /\ journal s'
              = [(0%N, Started 0); (900%N, Settled 0)] ++ [(now, Started 1)]
           /\ inFlight s' = [] ++ [1]
           /\ requestQueue s' = [].
Proof.
  apply (@waiting_task_has_a_timer secondWaits
           (mkState [1] false [] [1900%N] 900%N 2
              [(0%N, Started 0); (900%N, Settled 0)]) 1 []).
  - vm_compute. reflexivity.
  - reflexivity.
  - reflexivity.
Defined.

End QueueLiveness.

(** ** Response handling: when an operation returns *)

Module ResponseTaxonomy.
Import Js Response ResponseParts ResponseFacts.
Local Open Scope string_scope.

Section ImageOperations.

Variable emptyMessage : string.
Variable safetyMessage : Candidate -> string.
Variable unexpectedMessage : string -> string.
Variable scan : GeminiOutput -> ResponsePart -> GeminiOutput.
Variable noImageMessage : string.
Variable wrapper : string.

Let operation :=
  imageOperation emptyMessage safetyMessage unexpectedMessage scan
    noImageMessage wrapper.

Lemma imageOperation_unexpected (response : GenerateContentResponse)
  (c : Candidate) (reason : string) :
  firstCandidate response = Some c ->
  finishReason c = Some reason ->
  nonEmpty reason = true ->
  isOneOf ["STOP"; "MAX_TOKENS"; "SAFETY"; "IMAGE_SAFETY"] reason = false ->
  operation (Ok response)
  = Throw (ErrorObj (wrapper ++ unexpectedMessage reason)).
Proof.
  intros Hc Hr Hne Hnot. unfold operation, imageOperation, interpretImage.
  rewrite Hc, Hr, Hne.
  unfold isOneOf in *. simpl in *.
  destruct (String.eqb reason "STOP"); [discriminate|].
  destruct (String.eqb reason "MAX_TOKENS"); [discriminate|].
  unfold isSafetyReason, isOneOf. simpl.
  destruct (String.eqb reason "SAFETY"); [discriminate|].
  destruct (String.eqb reason "IMAGE_SAFETY"); [discriminate|].
  reflexivity.
Qed.

(** An image operation that returns has found a truthy image URL. *)
Lemma imageOperation_Ok_image (response : GenerateContentResponse)
  (output : GeminiOutput) :
  operation (Ok response) = Ok output ->
  truthyStr (imageUrl output) = true.
Proof.
  unfold operation, imageOperation. intros H. apply rethrow_Ok in H.
  unfold interpretImage in H.
  destruct (firstCandidate response) as [c|]; [|discriminate].
  assert (Hx : extractOutput scan noImageMessage c = Ok output ->
               truthyStr (imageUrl output) = true).
  { unfold extractOutput. cbv zeta.
    destruct (truthyStr (imageUrl (scanParts scan c))) eqn:E;
      intros H0; inversion H0; subst; exact E. }
  destruct (finishReason c) as [reason|]; [|exact (Hx H)].
  destruct (andb (nonEmpty reason)
                 (negb (isOneOf ["STOP"; "MAX_TOKENS"] reason)));
    [|exact (Hx H)].
  destruct (isSafetyReason reason); discriminate.
Qed.

End ImageOperations.

(** X8. A first candidate stopped for a reason other than [STOP],
    [MAX_TOKENS], [SAFETY] and [IMAGE_SAFETY] makes each image operation
    throw an error that carries the reason as it came. *)
Theorem unexpected_finish_is_thrown (response : GenerateContentResponse)
  (c : Candidate) (reason : string) :
  firstCandidate response = Some c ->
  finishReason c = Some reason ->
  nonEmpty reason = true ->
  isOneOf ["STOP"; "MAX_TOKENS"; "SAFETY"; "IMAGE_SAFETY"] reason = false ->
  generateStudioPhoto_result (Ok response)
  = Throw (ErrorObj
             ("An error occurred while communicating with the AI. Details: "
              ++ "Generation stopped for an unexpected reason: " ++ reason
              ++ "."))
  /\ inpaintImage_result (Ok response)
     = Throw (ErrorObj
                ("An error occurred during in-painting. Details: "
                 ++ "In-painting stopped for an unexpected reason: "
                 ++ reason ++ "."))
  /\ swapFace_result (Ok response)
     = Throw (ErrorObj
                ("An error occurred while swapping the face. Details: "
                 ++ "Face swap stopped for an unexpected reason: " ++ reason
                 ++ "."))
  /\ manipulateScene_result (Ok response)
     = Throw (ErrorObj
                ("An error occurred during scene manipulation. Details: "
                 ++ "Generation stopped unexpectedly: " ++ reason ++ ".")).
Proof.
  intros Hc Hr Hne Hnot.
  split; [|split; [|split]];
    unfold generateStudioPhoto_result, inpaintImage_result, swapFace_result,
      manipulateScene_result;
    rewrite (@imageOperation_unexpected _ _ _ _ _ _ response c reason
               Hc Hr Hne Hnot);
    reflexivity.
Qed.

Lemma unexpected_finish_is_thrown_witness :
  generateStudioPhoto_result (Ok recitationStop)
  = Throw (ErrorObj
             ("An error occurred while communicating with the AI. Details: "
              ++ "Generation stopped for an unexpected reason: "
              ++ "RECITATION" ++ "."))
  /\ inpaintImage_result (Ok recitationStop)
     = Throw (ErrorObj
                ("An error occurred during in-painting. Details: "
                 ++ "In-painting stopped for an unexpected reason: "
                 ++ "RECITATION" ++ "."))
  /\ swapFace_result (Ok recitationStop)
     = Throw (ErrorObj
                ("An error occurred while swapping the face. Details: "
                 ++ "Face swap stopped for an unexpected reason: "
                 ++ "RECITATION" ++ "."))
  /\ manipulateScene_result (Ok recitationStop)
     = Throw (ErrorObj
                ("An error occurred during scene manipulation. Details: "
                 ++ "Generation stopped unexpectedly: " ++ "RECITATION"
                 ++ ".")).
Proof.
  apply (@unexpected_finish_is_thrown recitationStop
           (mkCandidate (Some "RECITATION") None
              (Some [mkPart None (Some "a portrait")]))
           "RECITATION"); reflexivity.
Defined.

(** X9. [describeImage] has neither check: for a response that is not
    stopped for safety -- no candidate at all, or any other finish
    reason -- it returns [response.text] as it is, [undefined]
    included. *)
Theorem describeImage_returns_text_unless_blocked
  (response : GenerateContentResponse) :
  (forall c reason,
      firstCandidate response = Some c -> finishReason c = Some reason ->
      isSafetyReason reason = false) ->
  describeImage_result (Ok response) = Ok (responseText response).
Proof.
  intros H. unfold describeImage_result, describeBlocked.
  destruct (firstCandidate response) as [c|]; [|reflexivity].
  destruct (finishReason c) as [reason|] eqn:Hr; [|reflexivity].
  rewrite (H c reason eq_refl Hr).
  now destruct (andb _ _).
Qed.

Lemma describeImage_returns_text_unless_blocked_witness :
  describeImage_result (Ok recitationStop) = Ok (Some "a portrait")
  /\ describeImage_result (Ok noCandidates) = Ok (Some "a portrait")
  /\ describeImage_result (Ok twoImages) = Ok None.
Proof.
  split; [|split].
  - apply (@describeImage_returns_text_unless_blocked recitationStop).
    intros c reason Hc Hr. vm_compute in Hc. injection Hc as <-.
    vm_compute in Hr. injection Hr as <-. reflexivity.
  - apply (@describeImage_returns_text_unless_blocked noCandidates).
    intros c reason Hc. discriminate.
  - apply (@describeImage_returns_text_unless_blocked twoImages).
    intros c reason Hc Hr. vm_compute in Hc. injection Hc as <-.
    vm_compute in Hr. injection Hr as <-. reflexivity.
Defined.


Lemma inlineImages_app (a b : list ResponsePart) :
  inlineImages (a ++ b)%list = (inlineImages a ++ inlineImages b)%list.
Proof. unfold inlineImages. apply flat_map_app. Qed.

(** Both loops keep the URL of the last inline image. *)
Lemma scan_imageUrl (scan : GeminiOutput -> ResponsePart -> GeminiOutput)
  (parts : list ResponsePart) :
  scan = scanConcat \/ scan = scanOverwrite ->
  forall output : GeminiOutput,
    imageUrl (fold_left scan parts output)
    = match lastInline parts with
      | Some d => Some (dataUrl d)
      | None => imageUrl output
      end.
Proof.
  intros Hscan.
  induction parts as [|part parts IH] using rev_ind; intros output.
  - reflexivity.
  - rewrite fold_left_app. simpl. unfold lastInline in *.
    rewrite inlineImages_app, rev_app_distr.
    unfold inlineImages at 1. simpl.
    destruct Hscan as [-> | ->]; unfold scanConcat, scanOverwrite;
      destruct (inlineData part) as [d|]; simpl;
      try reflexivity;
      destruct (truthyStr (text part)); simpl; apply IH.
Qed.

Lemma imageOperation_Ok_iff
  (emptyMessage : string) (safetyMessage : Candidate -> string)
  (unexpectedMessage : string -> string)
  (scan : GeminiOutput -> ResponsePart -> GeminiOutput)
  (noImageMessage wrapper : string)
  (response : GenerateContentResponse) (output : GeminiOutput) :
  scan = scanConcat \/ scan = scanOverwrite ->
  imageOperation emptyMessage safetyMessage unexpectedMessage scan
    noImageMessage wrapper (Ok response) = Ok output
  <-> (exists c,
          firstCandidate response = Some c
          /\ acceptableFinish c = true
          /\ lastInline (candidateParts response) <> None
          /\ output = fold_left scan (candidateParts response) emptyOutput).
Proof.
  intros Hscan.
  assert (Hurl : imageUrl (fold_left scan (candidateParts response)
                             emptyOutput)
                 = match lastInline (candidateParts response) with
                   | Some d => Some (dataUrl d)
                   | None => None
                   end)
    by (now rewrite scan_imageUrl).
  split.
  - intros H.
    pose proof (imageOperation_Ok_image _ _ _ _ _ _ _ H) as Himg.
    pose proof (imageOperation_Ok _ _ _ _ _ _ _ H) as Hout.
    unfold imageOperation in H. apply rethrow_Ok in H.
    unfold interpretImage in H.
    destruct (firstCandidate response) as [c|] eqn:Hc; [|discriminate].
    exists c. split; [reflexivity|]. split.
    + unfold acceptableFinish.
      destruct (finishReason c) as [reason|]; [|reflexivity].
      destruct (nonEmpty reason); [|reflexivity].
      destruct (isOneOf ["STOP"; "MAX_TOKENS"] reason); [reflexivity|].
      simpl in H. destruct (isSafetyReason reason); discriminate.
    + split; [|exact Hout].
      intros Hnone. rewrite Hout, Hurl, Hnone in Himg. discriminate.
  - intros [c [Hc [Hfin [Hlast Hout]]]].
    unfold imageOperation, interpretImage. rewrite Hc.
    assert (Hx : extractOutput scan noImageMessage c = Ok output).
    { unfold extractOutput. cbv zeta.
      assert (Hparts : scanParts scan c
                       = fold_left scan (candidateParts response)
                           emptyOutput).
      { unfold scanParts, candidateParts. rewrite Hc.
        now destruct (content c). }
      rewrite Hparts, Hurl.
      destruct (lastInline (candidateParts response)) as [d|];
        [|now elim Hlast].
      simpl. now rewrite Hout. }
    unfold acceptableFinish in Hfin.
    destruct (finishReason c) as [reason|]; [|now rewrite Hx].
    destruct (nonEmpty reason); simpl in *; [|now rewrite Hx].
    rewrite Hfin. simpl. now rewrite Hx.
Qed.

(** X10. The four image operations succeed in one case only.  Each of them
    returns an output exactly when the response has a first candidate,
    its finish reason is absent, empty, [STOP] or [MAX_TOKENS], and its
    parts hold an inline image; the output is then the result of the
    loop over the parts.  For every other response the operation
    throws. *)
Theorem image_operations_succeed_exactly_when
  (response : GenerateContentResponse) (output : GeminiOutput) :
  let ready (scan : GeminiOutput -> ResponsePart -> GeminiOutput) :=
    exists c,
      firstCandidate response = Some c
      /\ acceptableFinish c = true
      /\ lastInline (candidateParts response) <> None
      /\ output = fold_left scan (candidateParts response) emptyOutput in
  (generateStudioPhoto_result (Ok response) = Ok output <-> ready scanConcat)
  /\ (inpaintImage_result (Ok response) = Ok output <-> ready scanOverwrite)
  /\ (swapFace_result (Ok response) = Ok output <-> ready scanConcat)
  /\ (manipulateScene_result (Ok response) = Ok output
      <-> ready scanOverwrite).
Proof.
  intros ready. unfold ready.
  split; [|split; [|split]];
    unfold generateStudioPhoto_result, inpaintImage_result, swapFace_result,
      manipulateScene_result;
    apply imageOperation_Ok_iff; (now left) + (now right).
Qed.

(** X11. An image operation never returns an output without an image, and
    the image it returns is the last inline image of the first
    candidate, as a data URL. *)
Theorem returned_image_is_last_inline (response : GenerateContentResponse)
  (output : GeminiOutput) :
  generateStudioPhoto_result (Ok response) = Ok output
  \/ inpaintImage_result (Ok response) = Ok output
  \/ swapFace_result (Ok response) = Ok output
  \/ manipulateScene_result (Ok response) = Ok output ->
  exists d,
    lastInline (candidateParts response) = Some d
    /\ imageUrl output
       = Some ("data:" ++ mimeType d ++ ";base64," ++ data d).
Proof.
  intros H.
  assert (Himg : truthyStr (imageUrl output) = true
                 /\ imageUrl output
                    = match lastInline (candidateParts response) with
                      | Some d => Some (dataUrl d)
                      | None => None
                      end).
  { destruct H as [H|[H|[H|H]]];
      (split; [exact (imageOperation_Ok_image _ _ _ _ _ _ _ H)|]);
      apply imageOperation_Ok in H; subst output;
      rewrite scan_imageUrl by (now left + now right); reflexivity. }
  destruct Himg as [Htruthy Hurl].
  destruct (lastInline (candidateParts response)) as [d|].
  - exists d. split; [reflexivity | exact Hurl].
  - rewrite Hurl in Htruthy. discriminate.
Qed.

Lemma returned_image_is_last_inline_witness :
  exists d,
    lastInline (candidateParts twoImages) = Some d
    /\ imageUrl (mkOutput (Some "data:image/jpeg;base64,BBBB") None)
       = Some ("data:" ++ mimeType d ++ ";base64," ++ data d).
Proof.
  apply (@returned_image_is_last_inline twoImages
           (mkOutput (Some "data:image/jpeg;base64,BBBB") None)).
  right. left. reflexivity.
Defined.

Lemma dropChars_app (a b : string) : dropChars (String.length a) (a ++ b) = b.
Proof. induction a as [|c a IH]; simpl; [now destruct b | exact IH]. Qed.

Lemma replaceFirst_prefix (pattern rest : string) :
  replaceFirst pattern "" (pattern ++ rest) = rest.
Proof.
  assert (Hunfold : forall s,
             replaceFirst pattern "" s
             = if String.prefix pattern s
               then "" ++ dropChars (String.length pattern) s
               else match s with
                    | EmptyString => EmptyString
                    | String c s' => String c (replaceFirst pattern "" s')
                    end)
    by (intros s; destruct s; reflexivity).
  rewrite Hunfold, JsFacts.prefix_app. simpl. apply dropChars_app.
Qed.

(** X12. The categories named in a safety message are those of the ratings
    marked as blocked, in the order of the response and without their
    [HARM_CATEGORY_] prefix; ratings that are not blocked are left
    out. *)
Theorem blocked_categories_listed (c : Candidate)
  (entries : list (string * bool)) :
  safetyRatings c = Some (map harmRating entries) ->
  blockedRatings c = Some (map fst (filter snd entries))
  /\ blockedList c
     = if nonEmpty (join ", " (map fst (filter snd entries)))
       then join ", " (map fst (filter snd entries))
       else "unspecified".
Proof.
  intros H.
  assert (Hb : blockedRatings c = Some (map fst (filter snd entries))).
  { unfold blockedRatings. rewrite H. f_equal. clear H.
    induction entries as [|[name b] entries IH]; [reflexivity|].
    simpl. destruct b; simpl; [|exact IH].
    rewrite IH. f_equal. apply (replaceFirst_prefix "HARM_CATEGORY_"). }
  split; [exact Hb|]. unfold blockedList. now rewrite Hb.
Qed.

Lemma blocked_categories_listed_witness :
  blockedRatings ratedCandidate
  = Some (map fst (filter snd [("HARASSMENT", false);
                               ("SEXUALLY_EXPLICIT", true);
                               ("DANGEROUS_CONTENT", true)]))
  /\ blockedList ratedCandidate
     = if nonEmpty (join ", "
                      (map fst (filter snd [("HARASSMENT", false);
                                            ("SEXUALLY_EXPLICIT", true);
                                            ("DANGEROUS_CONTENT", true)])))
       then join ", "
              (map fst (filter snd [("HARASSMENT", false);
                                    ("SEXUALLY_EXPLICIT", true);
                                    ("DANGEROUS_CONTENT", true)]))
       else "unspecified".
Proof.
  apply (@blocked_categories_listed ratedCandidate). reflexivity.
Defined.

Lemma assoc_setAssoc_other (k k0 : string) (x : jsval)
  (props : list (string * jsval)) :
  String.eqb k k0 = false ->
  assoc k (setAssoc k0 x props) = assoc k props.
Proof.
  intros Hne. induction props as [|[k' v] props IH]; simpl.
  - now rewrite Hne.
  - destruct (String.eqb k0 k') eqn:E; simpl.
    + apply String.eqb_eq in E. subst k'. now rewrite Hne.
    + destruct (String.eqb k k'); [reflexivity | exact IH].
Qed.

(** X13. The fallback of [analyzeArtReference] touches nothing but
    [lightingStyle]: every other property of the parsed answer reaches
    the caller unchanged, whether or not it is one the analysis should
    have; and an analysis that was returned passes the check again
    unchanged. *)
Theorem lighting_fallback_keeps_other_properties
  (JSON_parse : string -> result jsval)
  (response : GenerateContentResponse) (t : string)
  (parsed analysis : jsval) (k : string) :
  responseText response = Some t ->
  JSON_parse (trim t) = Ok parsed ->
  analyzeArtReference_result JSON_parse (Ok response) = Ok analysis ->
  String.eqb k "lightingStyle" = false ->
  getProp analysis k = getProp parsed k
  /\ validateLightingStyle analysis = Ok analysis.
Proof.
  intros Ht Hp H Hk. unfold analyzeArtReference_result in H.
  apply rethrow_Ok in H. rewrite Ht, Hp in H.
  unfold validateLightingStyle in H.
  destruct (isLightingStyle (getProp parsed "lightingStyle")) eqn:Hl.
  - assert (analysis = parsed) as -> by (destruct parsed; congruence).
    split; [reflexivity|]. unfold validateLightingStyle. rewrite Hl.
    destruct parsed; try reflexivity. discriminate.
  - destruct parsed; try discriminate; injection H as <-; simpl;
      (split; [now apply assoc_setAssoc_other|]);
      unfold validateLightingStyle; simpl; rewrite assoc_setAssoc;
      reflexivity.
Qed.

Lemma lighting_fallback_keeps_other_properties_witness :
  getProp (JObj [("lightingStyle", JStr "None"); ("mood", JStr "calm")])
    "mood"
  = getProp numberedStyle "mood"
  /\ validateLightingStyle
       (JObj [("lightingStyle", JStr "None"); ("mood", JStr "calm")])
     = Ok (JObj [("lightingStyle", JStr "None"); ("mood", JStr "calm")]).
Proof.
  apply (@lighting_fallback_keeps_other_properties
           (parserOf [(numberedStyleJson, numberedStyle)])
           (mkResponse None (Some numberedStyleJson)) numberedStyleJson
           numberedStyle
           (JObj [("lightingStyle", JStr "None"); ("mood", JStr "calm")])
           "mood"); reflexivity.
Defined.

End ResponseTaxonomy.

(** ** Failures of the service, seen by the caller *)

Module PipelineFacts.
Import Js Retry Response Pipeline RetryFacts.
Local Open Scope string_scope.

Lemma queuedCall_exhausted (JSON_parse : string -> result jsval)
  (apiCall : nat -> result GenerateContentResponse) (jitter : nat -> Q) :
  (forall i, (i < 5)%nat -> rateLimited JSON_parse (apiCall i) = true) ->
  queuedCall JSON_parse apiCall jitter = Throw (ErrorObj unavailableMessage).
Proof.
  intros Hall. unfold queuedCall, withRetry.
  destruct (@retryLoop_retries JSON_parse _ apiCall jitter 5 3000 2 4 1 0
              None) as [last' Hrun].
  - lia.
  - intros i Hi. apply Hall. lia.
  - change (4 + 1)%nat with 5%nat in Hrun. rewrite Hrun.
    change (0 + 4)%nat with (5 - 1)%nat.
    rewrite (@retryLoop_exhausted JSON_parse _ apiCall jitter 5 3000 2 0
               last'); [reflexivity | lia |].
    apply Hall. simpl. lia.
Qed.

(** X14. When the service answers each of the five attempts with a
    rate-limit error, every operation fails with its own prefix followed
    by the "temporarily unavailable" message; the error of the service
    does not reach the caller. *)
Theorem rate_limited_operations_report_unavailable
  (JSON_parse : string -> result jsval)
  (apiCall : nat -> result GenerateContentResponse) (jitter : nat -> Q) :
  (forall i, (i < 5)%nat -> rateLimited JSON_parse (apiCall i) = true) ->
  generateStudioPhoto_result (queuedCall JSON_parse apiCall jitter)
  = Throw (ErrorObj
             ("An error occurred while communicating with the AI. Details: "
              ++ unavailableMessage))
  /\ inpaintImage_result (queuedCall JSON_parse apiCall jitter)
     = Throw (ErrorObj
                ("An error occurred during in-painting. Details: "
                 ++ unavailableMessage))
  /\ describeImage_result (queuedCall JSON_parse apiCall jitter)
     = Throw (ErrorObj
                ("Failed to generate image description. Details: "
                 ++ unavailableMessage))
  /\ analyzeArtReference_result JSON_parse
       (queuedCall JSON_parse apiCall jitter)
     = Throw (ErrorObj
                ("Failed to analyze art reference. Details: "
                 ++ unavailableMessage))
  /\ swapFace_result (queuedCall JSON_parse apiCall jitter)
     = Throw (ErrorObj
                ("An error occurred while swapping the face. Details: "
                 ++ unavailableMessage))
  /\ manipulateScene_result (queuedCall JSON_parse apiCall jitter)
     = Throw (ErrorObj
                ("An error occurred during scene manipulation. Details: "
                 ++ unavailableMessage)).
Proof.
  intros Hall. rewrite (queuedCall_exhausted JSON_parse apiCall jitter Hall).
  repeat split.
Qed.

Lemma rate_limited_operations_report_unavailable_witness :
  generateStudioPhoto_result
    (queuedCall rejectingParser alwaysLimited (fun _ => 0%Q))
  = Throw (ErrorObj
             ("An error occurred while communicating with the AI. Details: "
              ++ unavailableMessage))
  /\ inpaintImage_result
       (queuedCall rejectingParser alwaysLimited (fun _ => 0%Q))
     = Throw (ErrorObj
                ("An error occurred during in-painting. Details: "
                 ++ unavailableMessage))
  /\ describeImage_result
       (queuedCall rejectingParser alwaysLimited (fun _ => 0%Q))
     = Throw (ErrorObj
                ("Failed to generate image description. Details: "
                 ++ unavailableMessage))
  /\ analyzeArtReference_result rejectingParser
       (queuedCall rejectingParser alwaysLimited (fun _ => 0%Q))
     = Throw (ErrorObj
                ("Failed to analyze art reference. Details: "
                 ++ unavailableMessage))
  /\ swapFace_result
       (queuedCall rejectingParser alwaysLimited (fun _ => 0%Q))
     = Throw (ErrorObj
                ("An error occurred while swapping the face. Details: "
                 ++ unavailableMessage))
  /\ manipulateScene_result
       (queuedCall rejectingParser alwaysLimited (fun _ => 0%Q))
     = Throw (ErrorObj
                ("An error occurred during scene manipulation. Details: "
                 ++ unavailableMessage)).
Proof.
  apply (@rate_limited_operations_report_unavailable rejectingParser
           alwaysLimited (fun _ => 0%Q)).
  intros i Hi. reflexivity.
Defined.

(** X15. A failure of the first attempt that is not a rate-limit error
    reaches the caller of every operation at once, as an [Error] with
    the prefix of the operation before the message of the failure, or
    before its rendering as a string when it is not an [Error]. *)
Theorem unclassified_failure_surfaces
  (JSON_parse : string -> result jsval)
  (apiCall : nat -> result GenerateContentResponse) (jitter : nat -> Q)
  (e : thrown) :
  apiCall 0%nat = Throw e ->
  isRateLimitError JSON_parse e = false ->
  fst (withRetry JSON_parse apiCall jitter 5 3000 2) = [Call 0]
  /\ generateStudioPhoto_result (queuedCall JSON_parse apiCall jitter)
     = Throw (ErrorObj
                ("An error occurred while communicating with the AI. Details: "
                 ++ messageOf e))
  /\ inpaintImage_result (queuedCall JSON_parse apiCall jitter)
     = Throw (ErrorObj
                ("An error occurred during in-painting. Details: "
                 ++ messageOf e))
  /\ describeImage_result (queuedCall JSON_parse apiCall jitter)
     = Throw (ErrorObj
                ("Failed to generate image description. Details: "
                 ++ messageOf e))
  /\ analyzeArtReference_result JSON_parse
       (queuedCall JSON_parse apiCall jitter)
     = Throw (ErrorObj
                ("Failed to analyze art reference. Details: "
                 ++ messageOf e))
  /\ swapFace_result (queuedCall JSON_parse apiCall jitter)
     = Throw (ErrorObj
                ("An error occurred while swapping the face. Details: "
                 ++ messageOf e))
  /\ manipulateScene_result (queuedCall JSON_parse apiCall jitter)
     = Throw (ErrorObj
                ("An error occurred during scene manipulation. Details: "
                 ++ messageOf e)).
Proof.
  intros Hcall Hrl. unfold queuedCall, withRetry.
  rewrite (@retryLoop_rethrow JSON_parse _ apiCall jitter 5 3000 2 4 0 None
             e Hcall Hrl).
  repeat split.
Qed.

Lemma unclassified_failure_surfaces_witness :
  fst (withRetry rejectingParser networkDown (fun _ => 0%Q) 5 3000 2)
  = [Call 0]
  /\ generateStudioPhoto_result
       (queuedCall rejectingParser networkDown (fun _ => 0%Q))
     = Throw (ErrorObj
                ("An error occurred while communicating with the AI. Details: "
                 ++ messageOf (ErrorObj "Failed to fetch")))
  /\ inpaintImage_result
       (queuedCall rejectingParser networkDown (fun _ => 0%Q))
     = Throw (ErrorObj
                ("An error occurred during in-painting. Details: "
                 ++ messageOf (ErrorObj "Failed to fetch")))
  /\ describeImage_result
       (queuedCall rejectingParser networkDown (fun _ => 0%Q))
     = Throw (ErrorObj
                ("Failed to generate image description. Details: "
                 ++ messageOf (ErrorObj "Failed to fetch")))
  /\ analyzeArtReference_result rejectingParser
       (queuedCall rejectingParser networkDown (fun _ => 0%Q))
     = Throw (ErrorObj
                ("Failed to analyze art reference. Details: "
                 ++ messageOf (ErrorObj "Failed to fetch")))
  /\ swapFace_result
       (queuedCall rejectingParser networkDown (fun _ => 0%Q))
     = Throw (ErrorObj
                ("An error occurred while swapping the face. Details: "
                 ++ messageOf (ErrorObj "Failed to fetch")))
  /\ manipulateScene_result
       (queuedCall rejectingParser networkDown (fun _ => 0%Q))
     = Throw (ErrorObj
                ("An error occurred during scene manipulation. Details: "
                 ++ messageOf (ErrorObj "Failed to fetch"))).
Proof.
  apply (@unclassified_failure_surfaces rejectingParser networkDown
           (fun _ => 0%Q) (ErrorObj "Failed to fetch")); reflexivity.
Defined.

End PipelineFacts.

(** ** Prompt assembly: what a request reads and sends *)

Module PromptStructure.
Import Js JsFacts Prompt PromptInputs PromptFacts Scenarios.
Local Open Scope string_scope.

(** X16. The background image is read in the mode [upload] only, the
    background text only in the mode [describe] and, when an image is
    there, in the mode [upload]: whatever else these two fields hold
    does not change the request. In the mode [random] a background text
    is ignored; in the mode [upload] without an image it is dropped. *)
Theorem background_inputs_read_by_mode (p : GenerateStudioPhotoParams)
  (image : option ImageFile) (text : string) :
  generateStudioPhoto_parts
    (withBackground
       (if readsBackgroundImage p then backgroundImage p else image)
       (if readsBackgroundText p then backgroundPrompt p else text) p)
  = generateStudioPhoto_parts p.
Proof.
  unfold readsBackgroundImage, readsBackgroundText.
  unfold generateStudioPhoto_parts, instructionSet, compositionSection,
    compoInstructions.
  cbn [withBackground backgroundMode backgroundImage backgroundPrompt
       dressImage dressPrompt objectImage sourceImage faceReferenceImage
       artReferenceImage].
  destruct (String.eqb (backgroundMode p) "upload") eqn:Hu;
    destruct (String.eqb (backgroundMode p) "describe") eqn:Hd;
    destruct (backgroundImage p) as [bg|]; cbn [present andb orb];
    try reflexivity;
    destruct (String.eqb (backgroundMode p) "random"); reflexivity.
Qed.


(** X17. A choice that is delegated to the art reference is not read: with
    [useArtReferenceLighting] set the lighting style, and with
    [useArtReferenceSkin] set the skin texture and the highlight
    pairing, can be anything without changing the request -- also when
    no art reference image is there, in which case nothing is said
    about them at all. *)
Theorem delegated_choices_not_read (p : GenerateStudioPhotoParams)
  (lighting texture highlight intensity : string) :
  generateStudioPhoto_parts
    (withFinish
       (if useArtReferenceLighting p then lighting else lightingStyle p)
       (if useArtReferenceSkin p then texture else skinTexture p)
       (if useArtReferenceSkin p then highlight else highlightStyle p)
       (if useArtReferenceSkin p then intensity else highlightIntensity p)
       p)
  = generateStudioPhoto_parts p.
Proof.
  unfold generateStudioPhoto_parts, instructionSet, stylizationSection,
    finalTouches.
  cbn [withFinish lightingStyle skinTexture highlightStyle
       highlightIntensity useArtReferenceLighting useArtReferenceSkin
       stylePrompt backgroundMode backgroundImage sourceImage
       faceReferenceImage artReferenceImage dressImage objectImage].
  destruct (useArtReferenceLighting p); destruct (useArtReferenceSkin p);
    cbn [negb andb]; rewrite ?andb_false_r; reflexivity.
Qed.

Lemma images_labelled (label : string) (image : option ImageFile)
  (rest : list Part) :
  images (labelled label image ++ rest)
  = (map fileToGenerativePart (imageList image) ++ images rest)%list.
Proof. destruct image; reflexivity. Qed.

(** X18. The images of a request are sent in a fixed order -- subject, face
    reference, art style, outfit, object, background -- each one only
    if it is there, the background only in the mode [upload]; the flyer
    and the thumbnail template send the subject image alone. *)
Theorem images_sent_in_fixed_order (p : GenerateStudioPhotoParams) :
  images (generateStudioPhoto_parts p)
  = map fileToGenerativePart
      (sourceImage p
       :: (if orb (isFlyerDesign p) (isThumbnailDesign p) then []
           else labelledImages p)).
Proof.
  unfold generateStudioPhoto_parts, labelledImages.
  destruct (isFlyerDesign p); [reflexivity|].
  destruct (isThumbnailDesign p); [reflexivity|].
  cbn [orb app]. unfold images at 1. cbn [filter isImage fileToGenerativePart].
  fold (images (labelled "This is the [Face Reference] image:"
                  (faceReferenceImage p)
                ++ labelled "This is the [Art Style] image:"
                     (artReferenceImage p)
                ++ labelled "This is the [Outfit] image:" (dressImage p)
                ++ labelled "This is the [Object] image:" (objectImage p)
                ++ (if String.eqb (backgroundMode p) "upload"
                    then labelled "This is the [Background] image:"
                           (backgroundImage p)
                    else []))%list).
  rewrite !images_labelled. cbn [map]. f_equal.
  rewrite !map_app. repeat f_equal.
  destruct (String.eqb (backgroundMode p) "upload"); [|reflexivity].
  now destruct (backgroundImage p).
Qed.

(** X19. The camera section lists between one and thirteen settings, the
    colour temperature always among them, so it is never left out. *)
Theorem camera_details_between_1_and_13 (p : GenerateStudioPhotoParams) :
  (1 <= length (cameraDetails p) <= 13)%nat
  /\ In ("Color Temperature: " ++ showZ (lightingTemperature p) ++ "K ("
         ++ tempDesc p ++ " light)") (cameraDetails p)
  /\ length (cameraSection p) = 1%nat.
Proof.
  split; [|split].
  - unfold cameraDetails. rewrite !length_app.
    repeat match goal with
           | |- context [length (if ?b then ?x else ?y)] =>
               let H := fresh "H" in
               assert (H : (length (if b then x else y) <= 1)%nat)
                 by (repeat match goal with
                            | |- context [if ?c then _ else _] => destruct c
                            end; cbn [length]; lia);
               generalize dependent (length (if b then x else y)); intros
           end.
    cbn [length]. lia.
  - unfold cameraDetails. rewrite !in_app_iff.
    do 10 right. left. now left.
  - now rewrite cameraSection_always_emitted.
Qed.


Lemma round_tenths (a : Z) :
  (0 <= a)%Z -> Qfloor (Qplus (Qmult (a # 10) (10 # 1)) (1 # 2)) = a.
Proof.
  intros Ha. unfold Qfloor, Qplus, Qmult. cbn [Qnum Qden].
  change (Z.pos (10 * 1 * 2)) with 20%Z. change (Z.pos (10 * 1)) with 10%Z.
  change (Z.pos 2) with 2%Z.
  replace (a * 10 * 2 + 1 * 10)%Z with (a * 20 + 10)%Z by lia.
  rewrite Z.div_add_l by lia. change (10 / 20)%Z with 0%Z. lia.
Qed.

Lemma toFixed1_tenths (n : Z) :
  toFixed1 (n # 10)
  = (if (n <? 0)%Z then "-" else "")
    ++ showZ (Z.abs n / 10) ++ "." ++ showZ (Z.abs n mod 10).
Proof.
  unfold toFixed1.
  assert (Hneg : negb (Qle_bool (0 # 1) (n # 10)) = (n <? 0)%Z).
  { unfold Qle_bool. cbn [Qnum Qden].
    destruct (Z.ltb_spec n 0); destruct (Z.leb_spec (0 * 10) (n * 1));
      simpl; try reflexivity; lia. }
  rewrite Hneg.
  destruct (Z.ltb_spec n 0) as [Hlt|Hge].
  - change (Qopp (n # 10)) with (- n # 10).
    rewrite round_tenths by lia. now rewrite Z.abs_neq by lia.
  - rewrite round_tenths by lia. now rewrite Z.abs_eq by lia.
Qed.

Lemma toFixed1_compat (x y : Q) : (x == y)%Q -> toFixed1 x = toFixed1 y.
Proof.
  intros H. unfold toFixed1. cbv zeta.
  replace (Qle_bool (0 # 1) x) with (Qle_bool (0 # 1) y)
    by (now rewrite H).
  destruct (negb (Qle_bool (0 # 1) y)); now rewrite H.
Qed.

(** X20. The exposure entry of the camera settings.  For an exposure of [n]
    tenths below 10^21 in absolute value -- the range in which
    [toFixed] prints the fixed notation, and which holds the values
    -2.0 to 2.0 of the slider -- the camera settings hold no exposure
    entry when [n] is zero and exactly one otherwise; it prints the
    value with its sign -- a plus for a positive value, which
    [toFixed] does not print itself -- and one decimal, and calls the
    image brighter for a positive and darker for a negative value. *)
Theorem exposure_entry_signed (p : GenerateStudioPhotoParams) (n : Z) :
  (exposure p == n # 10)%Q ->
  (Z.abs n < 10 ^ 22)%Z ->
  filter (String.prefix "Exposure Compensation: ") (cameraDetails p)
  = if (n =? 0)%Z then []
    else [ "Exposure Compensation: "
           ++ (if (0 <? n)%Z then "+" else "-")
           ++ showZ (Z.abs n / 10) ++ "." ++ showZ (Z.abs n mod 10)
           ++ " EV (" ++ (if (0 <? n)%Z then "brighter" else "darker")
           ++ " image)" ].
Proof.
  intros H _.
  assert (Hz : Qeq_bool (exposure p) (0 # 1) = (n =? 0)%Z).
  { rewrite H. unfold Qeq_bool. cbn [Qnum Qden].
    destruct (Z.eqb_spec n 0); destruct (Z.eqb_spec (n * 1) (0 * 10));
      try reflexivity; lia. }
  assert (Hp : negb (Qle_bool (exposure p) (0 # 1)) = (0 <? n)%Z).
  { rewrite H. unfold Qle_bool. cbn [Qnum Qden].
    destruct (Z.ltb_spec 0 n); destruct (Z.leb_spec (n * 1) (0 * 10));
      simpl; try reflexivity; lia. }
  unfold cameraDetails, exposureSign, exposureWord, exposurePositive.
  rewrite (toFixed1_compat H), toFixed1_tenths, Hz, Hp.
  rewrite !filter_app.
  repeat match goal with
         | |- context [filter _ (if ?c then [?x] else [])] =>
             replace (filter (String.prefix "Exposure Compensation: ")
                        (if c then [x] else []))
               with (@nil string) by (destruct c; reflexivity)
         end.
  replace (filter (String.prefix "Exposure Compensation: ")
             (if andb (String.eqb (focusMode p) "Manual")
                      (nonEmpty (manualFocusSubject p))
              then [ "Focus: Manually set the sharpest point of focus on "
                     ++ dq ++ manualFocusSubject p ++ dq ]
              else if andb (negb (String.eqb (focusMode p) "Auto"))
                           (negb (String.eqb (focusMode p) "Manual"))
                   then [ "Focus: Set the sharpest point of focus on the "
                          ++ toLowerCase (focusMode p) ]
                   else []))
    with (@nil string)
    by (destruct (andb _ _); [reflexivity|destruct (andb _ _); reflexivity]).
  cbn [app].
  replace (filter (String.prefix "Exposure Compensation: ")
             [ "Color Temperature: " ++ showZ (lightingTemperature p) ++ "K ("
               ++ tempDesc p ++ " light)" ])
    with (@nil string) by reflexivity.
  cbn [app].
  destruct (Z.eqb_spec n 0) as [->|Hn]; [reflexivity|].
  cbn [negb].
  destruct (Z.ltb_spec 0 n); destruct (Z.ltb_spec n 0); try lia;
    simpl; rewrite !JsFacts.app_assoc; reflexivity.
Qed.

Lemma exposure_entry_signed_witness :
  filter (String.prefix "Exposure Compensation: ")
    (cameraDetails (withExposure (-1 # 2) (defaultParams portrait)))
  = [ "Exposure Compensation: -0.5 EV (darker image)" ].
Proof.
  apply (@exposure_entry_signed (withExposure (-1 # 2) (defaultParams portrait)) (-5)).
  - reflexivity.
  - reflexivity.
Defined.

End PromptStructure.

(* ===================================================================== *)
(** ** The client singleton *)
(* ===================================================================== *)

Module ClientFacts.
Import Js AiClient.

Lemma successiveCalls_settled (Client : Type) (settled : result Client)
  (envs : list (environment Client)) :
  Forall (eq settled) (successiveCalls (Some settled) envs).
Proof.
  induction envs as [|env envs IH]; simpl; constructor; auto.
Qed.

(** X21. [getAiClientAndEnums] initializes once.  Starting from the unset
    module variable, every call returns the settlement of the first
    initialization, whatever the environment has become since: a client
    built once is reused, and a failure of the first initialization (a
    rejected import, a missing or empty API key, a throwing constructor)
    is handed to every later call as well, never tried again. *)
Theorem client_initialized_once (Client : Type)
  (first : environment Client) (later : list (environment Client)) :
  Forall (eq (initialize first)) (successiveCalls None (first :: later)).
Proof.
  simpl. constructor; [reflexivity|]. apply successiveCalls_settled.
Qed.

End ClientFacts.

(* ===================================================================== *)
(** ** The page *)
(* ===================================================================== *)

Module AppFacts.
Import Js JsFacts App.
Local Open Scope string_scope.

(** *** History *)

Lemma inRange_initial : inRange initialHistory.
Proof. left. split; reflexivity. Qed.

Lemma inRange_undo (st : historyState) : inRange st -> inRange (handleUndo st).
Proof.
  unfold handleUndo, canUndo. intros H.
  destruct (Z.ltb_spec 0 (historyIndex st)); [|exact H].
  destruct H as [[H _]|H]; [lia|]. right. simpl. lia.
Qed.

Lemma inRange_redo (st : historyState) : inRange st -> inRange (handleRedo st).
Proof.
  unfold handleRedo, canRedo. intros H.
  destruct (Z.ltb_spec (historyIndex st) (Z.of_nat (length (history st)) - 1));
    [|exact H].
  destruct H as [[H _]|H]; right; simpl; lia.
Qed.

Lemma inRange_update (st : historyState) (out : Response.GeminiOutput) :
  inRange (updateHistory st out).
Proof.
  right. unfold updateHistory. cbn [historyIndex history].
  rewrite length_app. simpl. lia.
Qed.

Lemma inRange_latest (past : renders) : Forall inRange past -> inRange (latest past).
Proof.
  destruct past as [|st past]; simpl; intros H.
  - apply inRange_initial.
  - now inversion H.
Qed.

Lemma inRange_act (past : renders) (a : historyAction) :
  Forall inRange past -> Forall inRange (act past a).
Proof.
  intros H. pose proof (@inRange_latest _ H) as Hl.
  destruct a; simpl; constructor; try assumption.
  - now apply inRange_undo.
  - now apply inRange_redo.
  - apply inRange_update.
  - apply inRange_initial.
Qed.

Lemma inRange_fold (actions : list historyAction) (past : renders) :
  Forall inRange past -> Forall inRange (fold_left act actions past).
Proof.
  revert past. induction actions as [|a actions IH]; intros past H; simpl.
  - exact H.
  - apply IH, inRange_act, H.
Qed.

Lemma inRange_play (actions : list historyAction) :
  Forall inRange (play actions).
Proof.
  apply inRange_fold. constructor; [apply inRange_initial|constructor].
Qed.

Lemma inRange_nth (past : renders) (k : nat) :
  Forall inRange past -> inRange (nth k past (latest past)).
Proof.
  intros H. destruct (Nat.lt_ge_cases k (length past)) as [Hk|Hk].
  - rewrite Forall_forall in H. apply H, nth_In, Hk.
  - rewrite nth_overflow by exact Hk. now apply inRange_latest.
Qed.

(** X22. The history index stays in range.  After any sequence of undo,
    redo, arriving outputs (whichever render their handler had
    captured) and resets, the index is [-1] on an empty history and a
    position of the history otherwise; so the page shows no output
    exactly when the history is empty. *)
Theorem history_index_in_range (actions : list historyAction) :
  inRange (latest (play actions))
  /\ (currentOutput (latest (play actions)) = None
      <-> history (latest (play actions)) = []).
Proof.
  pose proof (@inRange_latest _ (inRange_play actions)) as H.
  split; [exact H|].
  unfold currentOutput.
  destruct H as [[Hi Hh]|H].
  - rewrite Hi, Hh. simpl. tauto.
  - destruct (Z.ltb_spec (historyIndex (latest (play actions))) 0); [lia|].
    split.
    + intros Hn. apply nth_error_None in Hn. lia.
    + intros Hh. rewrite Hh in H. simpl in H. lia.
Qed.

(** X23. Undo and redo are inverse.  In every state the page can reach,
    when undo is enabled, undo followed by redo gives the state back,
    and when redo is enabled, redo followed by undo does. *)
Theorem undo_redo_inverse (actions : list historyAction) :
  (canUndo (latest (play actions)) = true ->
   handleRedo (handleUndo (latest (play actions))) = latest (play actions))
  /\ (canRedo (latest (play actions)) = true ->
      handleUndo (handleRedo (latest (play actions))) = latest (play actions)).
Proof.
  pose proof (@inRange_latest _ (inRange_play actions)) as H.
  destruct (latest (play actions)) as [h i].
  unfold inRange, handleUndo, handleRedo, canUndo, canRedo in *.
  cbn [history historyIndex] in *.
  split; intros Hc; rewrite Hc; cbn [history historyIndex].
  - apply Z.ltb_lt in Hc.
    destruct H as [[H _]|H]; [lia|].
    destruct (Z.ltb_spec (i - 1) (Z.of_nat (length h) - 1)); [|lia].
    f_equal. lia.
  - apply Z.ltb_lt in Hc.
    destruct H as [[H Hh]|H]; [subst; simpl in Hc; lia|].
    destruct (Z.ltb_spec 0 (i + 1)); [|lia].
    f_equal. lia.
Qed.

Lemma undo_redo_inverse_witness :
  canUndo (latest (play [Arrives 0 Response.emptyOutput;
                         Arrives 0 Response.emptyOutput])) = true
  /\ handleRedo (handleUndo
       (latest (play [Arrives 0 Response.emptyOutput;
                      Arrives 0 Response.emptyOutput])))
     = latest (play [Arrives 0 Response.emptyOutput;
                     Arrives 0 Response.emptyOutput])
  /\ canRedo (latest (play [Arrives 0 Response.emptyOutput;
                            Arrives 0 Response.emptyOutput; Undo])) = true
  /\ handleUndo (handleRedo
       (latest (play [Arrives 0 Response.emptyOutput;
                      Arrives 0 Response.emptyOutput; Undo])))
     = latest (play [Arrives 0 Response.emptyOutput;
                     Arrives 0 Response.emptyOutput; Undo]).
Proof.
  split; [reflexivity|]. split.
  - apply (proj1 (undo_redo_inverse
                    [Arrives 0 Response.emptyOutput;
                     Arrives 0 Response.emptyOutput])).
    reflexivity.
  - split; [reflexivity|].
    apply (proj2 (undo_redo_inverse
                    [Arrives 0 Response.emptyOutput;
                     Arrives 0 Response.emptyOutput; Undo])).
    reflexivity.
Defined.

(** X24. An arriving output becomes the current one and cuts the history
    at the captured position.  When an output arrives for a handler
    that had captured the state of some earlier render, the history
    becomes the captured history up to and including the captured
    position, followed by the new output; the new output is the one
    shown, and redo is disabled.  Entries behind the captured position,
    and whatever undo, redo or other outputs happened since that render,
    are not kept. *)
Theorem arriving_output_becomes_current (actions : list historyAction)
  (rendersAgo : nat) (output : Response.GeminiOutput) :
  let captured :=
    nth rendersAgo (play actions) (latest (play actions)) in
  let st' := latest (act (play actions) (Arrives rendersAgo output)) in
  history st'
  = (firstn (Z.to_nat (historyIndex captured + 1)) (history captured)
     ++ [output])%list
  /\ historyIndex st' = (historyIndex captured + 1)%Z
  /\ currentOutput st' = Some output
  /\ canRedo st' = false.
Proof.
  intros captured st'.
  pose proof (@inRange_nth _ rendersAgo (inRange_play actions)) as H.
  fold captured in H.
  assert (Hs : sliceTo (history captured) (historyIndex captured + 1)
               = firstn (Z.to_nat (historyIndex captured + 1))
                   (history captured)).
  { unfold sliceTo.
    destruct (Z.ltb_spec (historyIndex captured + 1) 0); [|reflexivity].
    destruct H as [[H _]|H]; lia. }
  assert (Hl : length (firstn (Z.to_nat (historyIndex captured + 1))
                         (history captured))
               = Z.to_nat (historyIndex captured + 1)).
  { rewrite length_firstn. destruct H as [[Hi Hh]|H].
    - rewrite Hi, Hh. reflexivity.
    - lia. }
  assert (Hp : (0 <= historyIndex captured + 1)%Z)
    by (destruct H as [[H _]|H]; lia).
  subst st'. cbn [act latest]. fold captured.
  unfold updateHistory, currentOutput, canRedo.
  cbn [history historyIndex]. rewrite Hs, length_app, Hl. simpl length.
  replace (Z.of_nat (Z.to_nat (historyIndex captured + 1) + 1) - 1)%Z
    with (historyIndex captured + 1)%Z by lia.
  repeat split.
  - destruct (Z.ltb_spec (historyIndex captured + 1) 0); [lia|].
    rewrite nth_error_app2 by lia.
    rewrite Hl, Nat.sub_diag. reflexivity.
  - apply Z.ltb_ge. lia.
Qed.

(** *** Reusing an output *)

Lemma splitComma_whole (s : string) :
  without "," s = true -> splitComma s = [s].
Proof.
  induction s as [|c s IH]; simpl; [reflexivity|].
  destruct (Ascii.eqb c ","); simpl; [discriminate|].
  intros H. rewrite (IH H). reflexivity.
Qed.

Lemma splitComma_app (a b : string) :
  without "," a = true ->
  splitComma (a ++ String "," b) = a :: splitComma b.
Proof.
  induction a as [|c a IH]; simpl; [reflexivity|].
  destruct (Ascii.eqb c ","); simpl; [discriminate|].
  intros H. rewrite (IH H). reflexivity.
Qed.

Lemma lazyToSemicolon_app (g rest : string) :
  without ";" g = true -> without "010" g = true -> without "013" g = true ->
  lazyToSemicolon (g ++ String ";" rest) = Some g.
Proof.
  induction g as [|c g IH]; simpl; [reflexivity|].
  unfold Retry.isLineTerminator.
  destruct (Ascii.eqb c ";"); simpl; [discriminate|].
  destruct (Ascii.eqb c "010"); simpl; [discriminate|].
  destruct (Ascii.eqb c "013"); simpl; [discriminate|].
  intros H1 H2 H3. rewrite (IH H1 H2 H3). reflexivity.
Qed.

Lemma without_app (c : ascii) (a b : string) :
  without c (a ++ b) = andb (without c a) (without c b).
Proof.
  induction a as [|x a IH]; simpl; [reflexivity|].
  rewrite IH. apply andb_assoc.
Qed.

(** X25. A returned image can be fed back unchanged.  The data URI that
    the service builds from an inline image of the answer is taken
    apart by [dataUrlToImageFile] into the very payload and MIME type
    received, with the URI as preview, and [fileToGenerativePart] sends
    these two on -- provided the MIME type holds no comma, semicolon or
    line break and the payload is not empty and holds no comma. *)
Theorem output_image_round_trip (d : Response.InlineData) :
  mimeToken (Response.mimeType d) = true ->
  without "," (Response.data d) = true ->
  nonEmpty (Response.data d) = true ->
  dataUrlToImageFile (Response.dataUrl d)
  = Some (Prompt.mkImageFile (Response.data d) (Response.mimeType d)
            (Response.dataUrl d))
  /\ option_map Prompt.fileToGenerativePart
       (dataUrlToImageFile (Response.dataUrl d))
     = Some (Prompt.InlineDataPart (Response.data d) (Response.mimeType d)).
Proof.
  intros Hm Hd Hn.
  unfold mimeToken in Hm.
  apply andb_prop in Hm. destruct Hm as [Hc Hm].
  apply andb_prop in Hm. destruct Hm as [Hs Hm].
  apply andb_prop in Hm. destruct Hm as [Hn1 Hn2].
  assert (E : dataUrlToImageFile (Response.dataUrl d)
              = Some (Prompt.mkImageFile (Response.data d)
                        (Response.mimeType d) (Response.dataUrl d))).
  { unfold dataUrlToImageFile, Response.dataUrl.
    replace ("data:" ++ Response.mimeType d ++ ";base64," ++ Response.data d)
      with (("data:" ++ Response.mimeType d ++ ";base64")
            ++ String "," (Response.data d)).
    2:{ rewrite !JsFacts.app_assoc. reflexivity. }
    rewrite splitComma_app.
    2:{ rewrite without_app, without_app, Hc. reflexivity. }
    rewrite (@splitComma_whole _ Hd).
    cbn [nth nth_error].
    replace (matchMimeType ("data:" ++ Response.mimeType d ++ ";base64"))
      with (Some (Response.mimeType d)).
    2:{ symmetry. simpl.
        change (Response.mimeType d ++ ";base64")
          with (Response.mimeType d ++ String ";" "base64").
        rewrite (@lazyToSemicolon_app _ "base64" Hs Hn1 Hn2). reflexivity. }
    rewrite Hn. reflexivity. }
  split; [exact E|]. rewrite E. reflexivity.
Qed.

Lemma output_image_round_trip_witness :
  option_map Prompt.fileToGenerativePart
    (dataUrlToImageFile
       (Response.dataUrl (Response.mkInlineData "iVBORw0KGgo=" "image/png")))
  = Some (Prompt.InlineDataPart "iVBORw0KGgo=" "image/png").
Proof.
  apply (output_image_round_trip
           (Response.mkInlineData "iVBORw0KGgo=" "image/png"));
    reflexivity.
Defined.

Lemma splitComma_pieces (s : string) :
  Forall (fun piece => without "," piece = true) (splitComma s).
Proof.
  induction s as [|c s IH]; simpl.
  - constructor; [reflexivity|constructor].
  - destruct (Ascii.eqb c ",") eqn:E.
    + constructor; [reflexivity|exact IH].
    + destruct (splitComma s) as [|piece pieces].
      * constructor; [simpl; rewrite E; reflexivity|constructor].
      * inversion IH; subst. constructor; [|assumption].
        simpl. rewrite E. assumption.
Qed.

Lemma lazyToSemicolon_group (s g : string) :
  lazyToSemicolon s = Some g ->
  without ";" g = true /\ without "010" g = true /\ without "013" g = true.
Proof.
  revert g. induction s as [|c s IH]; simpl; intros g; [discriminate|].
  destruct (Ascii.eqb c ";") eqn:E1.
  - intros [= <-]. repeat split.
  - unfold Retry.isLineTerminator.
    destruct (Ascii.eqb c "010") eqn:E2; simpl; [discriminate|].
    destruct (Ascii.eqb c "013") eqn:E3; simpl; [discriminate|].
    destruct (lazyToSemicolon s) as [g'|]; [|discriminate].
    intros [= <-]. destruct (IH g' eq_refl) as (H1 & H2 & H3).
    simpl. rewrite E1, E2, E3, H1, H2, H3. repeat split.
Qed.

Lemma matchMimeType_group (s g : string) :
  matchMimeType s = Some g ->
  without ";" g = true /\ without "010" g = true /\ without "013" g = true.
Proof.
  induction s as [|c s IH]; simpl; [discriminate|].
  destruct (Ascii.eqb c ":"); [|exact IH].
  destruct (lazyToSemicolon s) as [g'|] eqn:E; [|exact IH].
  intros [= <-]. exact (@lazyToSemicolon_group _ _ E).
Qed.

(** X26. What [dataUrlToImageFile] hands back is never an empty image.
    Whenever it returns an image file for a string, the payload is not
    empty and holds no comma, the MIME type holds no comma, semicolon or
    line break, and the preview is the string itself; in every other
    case it returns null. *)
Theorem reused_image_is_well_formed (url : string) (file : Prompt.ImageFile) :
  dataUrlToImageFile url = Some file ->
  nonEmpty (Prompt.base64 file) = true
  /\ without "," (Prompt.base64 file) = true
  /\ mimeToken (Prompt.mimeType file) = true
  /\ Prompt.previewUrl file = url.
Proof.
  unfold dataUrlToImageFile.
  pose proof (splitComma_pieces url) as Hp.
  destruct (splitComma url) as [|first rest]; simpl.
  - destruct (matchMimeType ""); discriminate.
  - destruct (matchMimeType first) as [mime|] eqn:Em; [|discriminate].
    destruct rest as [|second rest]; simpl; [discriminate|].
    destruct (nonEmpty second) eqn:En; [|discriminate].
    intros [= <-]. simpl.
    inversion Hp as [|? ? Hf Hr]; subst.
    inversion Hr as [|? ? Hsec _]; subst.
    destruct (@matchMimeType_group _ _ Em) as (H1 & H2 & H3).
    repeat split; try assumption.
    unfold mimeToken. rewrite H1, H2, H3.
    assert (Hsub : forall s g, without "," s = true ->
                     lazyToSemicolon s = Some g -> without "," g = true).
    { clear. induction s as [|c s IH]; simpl; intros g Hs; [discriminate|].
      apply andb_prop in Hs. destruct Hs as [Hc Hs].
      destruct (Ascii.eqb c ";"); [intros [= <-]; reflexivity|].
      destruct (Retry.isLineTerminator c); [discriminate|].
      destruct (lazyToSemicolon s) as [g'|]; [|discriminate].
      intros [= <-]. simpl. rewrite Hc, (IH g' Hs eq_refl). reflexivity. }
    assert (Hm : forall s g, without "," s = true ->
                   matchMimeType s = Some g -> without "," g = true).
    { clear - Hsub. induction s as [|c s IH]; simpl; intros g Hs;
        [discriminate|].
      apply andb_prop in Hs. destruct Hs as [Hc Hs].
      destruct (Ascii.eqb c ":"); [|now apply IH].
      destruct (lazyToSemicolon s) as [g'|] eqn:E; [|now apply IH].
      intros [= <-]. exact (Hsub _ _ Hs E). }
    rewrite (Hm _ _ Hf Em). reflexivity.
Qed.

Lemma reused_image_is_well_formed_witness :
  nonEmpty "iVBORw0KGgo=" = true
  /\ without "," "iVBORw0KGgo=" = true
  /\ mimeToken "image/png" = true
  /\ "data:image/png;base64,iVBORw0KGgo=" = "data:image/png;base64,iVBORw0KGgo=".
Proof.
  apply (@reused_image_is_well_formed
           "data:image/png;base64,iVBORw0KGgo="
           (Prompt.mkImageFile "iVBORw0KGgo=" "image/png"
              "data:image/png;base64,iVBORw0KGgo=")).
  reflexivity.
Defined.

(** *** Selected effects *)

Lemma lookupKey_deleteKey (k k' : string) (sel : selection) :
  lookupKey k (deleteKey k' sel)
  = if String.eqb k k' then None else lookupKey k sel.
Proof.
  unfold lookupKey.
  induction sel as [|[c v] sel IH]; simpl.
  - destruct (String.eqb k k'); reflexivity.
  - destruct (String.eqb k' c) eqn:E1.
    + apply String.eqb_eq in E1. subst c. rewrite IH.
      destruct (String.eqb k k'); reflexivity.
    + simpl. destruct (String.eqb k c) eqn:E2.
      * apply String.eqb_eq in E2. subst c.
        rewrite String.eqb_sym, E1. reflexivity.
      * exact IH.
Qed.

Lemma lookupKey_assignKey (k k' v : string) (sel : selection) :
  lookupKey k (assignKey k' v sel)
  = if String.eqb k k' then Some v else lookupKey k sel.
Proof.
  unfold lookupKey.
  induction sel as [|[c v'] sel IH]; simpl.
  - destruct (String.eqb k k'); reflexivity.
  - destruct (String.eqb k' c) eqn:E1.
    + apply String.eqb_eq in E1. subst c. simpl.
      destruct (String.eqb k k'); reflexivity.
    + simpl. destruct (String.eqb k c) eqn:E2.
      * apply String.eqb_eq in E2. subst c.
        rewrite String.eqb_sym, E1. reflexivity.
      * exact IH.
Qed.

Lemma lookupKey_change (k c e : string) (sel : selection) :
  lookupKey k (handleSelectedEffectChange c e sel)
  = if String.eqb k c
    then (if String.eqb e "None" then None else Some e)
    else lookupKey k sel.
Proof.
  unfold handleSelectedEffectChange.
  destruct (String.eqb e "None").
  - apply lookupKey_deleteKey.
  - apply lookupKey_assignKey.
Qed.

Lemma lookupKey_applyChanges (changes : list (string * string))
  (sel : selection) (categoryName : string) :
  lookupKey categoryName (applyChanges changes sel)
  = match lastChange categoryName changes with
    | Some effect => if String.eqb effect "None" then None else Some effect
    | None => lookupKey categoryName sel
    end.
Proof.
  unfold applyChanges. revert sel.
  induction changes as [|[c e] changes IH]; intros sel; simpl; [reflexivity|].
  rewrite IH.
  destruct (lastChange categoryName changes); [reflexivity|].
  rewrite lookupKey_change. cbn [fst snd].
  destruct (String.eqb categoryName c); reflexivity.
Qed.

Lemma keys_deleteKey (k x : string) (sel : selection) :
  In x (map fst (deleteKey k sel)) -> In x (map fst sel).
Proof.
  induction sel as [|[c v] sel IH]; simpl; [tauto|].
  destruct (String.eqb k c); simpl; [tauto|].
  intros [H|H]; [now left|right; exact (IH H)].
Qed.

Lemma NoDup_deleteKey (k : string) (sel : selection) :
  NoDup (map fst sel) -> NoDup (map fst (deleteKey k sel)).
Proof.
  induction sel as [|[c v] sel IH]; simpl; intros H; [constructor|].
  inversion H as [|? ? Hn Hd]; subst.
  destruct (String.eqb k c); [exact (IH Hd)|].
  simpl. constructor; [|exact (IH Hd)].
  intros Hin. exact (Hn (@keys_deleteKey _ _ _ Hin)).
Qed.

Lemma keys_assignKey (k v x : string) (sel : selection) :
  In x (map fst (assignKey k v sel)) -> x = k \/ In x (map fst sel).
Proof.
  induction sel as [|[c v'] sel IH]; simpl.
  - intros [H|[]]. now left.
  - destruct (String.eqb k c); simpl.
    + intros [H|H]; right; [now left|now right].
    + intros [H|H]; [right; now left|].
      destruct (IH H); [now left|right; now right].
Qed.

Lemma NoDup_assignKey (k v : string) (sel : selection) :
  NoDup (map fst sel) -> NoDup (map fst (assignKey k v sel)).
Proof.
  induction sel as [|[c v'] sel IH]; simpl; intros H.
  - constructor; [intros []|constructor].
  - inversion H as [|? ? Hn Hd]; subst.
    destruct (String.eqb_spec k c) as [->|Hne]; simpl.
    + constructor; assumption.
    + constructor; [|exact (IH Hd)].
      intros Hin. destruct (@keys_assignKey _ _ _ _ Hin); [congruence|tauto].
Qed.

Lemma values_deleteKey (k x : string) (sel : selection) :
  In x (map snd (deleteKey k sel)) -> In x (map snd sel).
Proof.
  induction sel as [|[c v] sel IH]; simpl; [tauto|].
  destruct (String.eqb k c); simpl; [tauto|].
  intros [H|H]; [now left|right; exact (IH H)].
Qed.

Lemma values_assignKey (k v x : string) (sel : selection) :
  In x (map snd (assignKey k v sel)) -> x = v \/ In x (map snd sel).
Proof.
  induction sel as [|[c v'] sel IH]; simpl.
  - intros [H|[]]. now left.
  - destruct (String.eqb k c); simpl.
    + intros [H|H]; [now left|right; now right].
    + intros [H|H]; [right; now left|].
      destruct (IH H); [now left|right; now right].
Qed.

Lemma tidy_change (c e : string) (sel : selection) :
  tidy sel -> tidy (handleSelectedEffectChange c e sel).
Proof.
  unfold tidy, handleSelectedEffectChange. intros [Hd Hv].
  destruct (String.eqb_spec e "None") as [->|Hne].
  - split; [now apply NoDup_deleteKey|].
    intros H. exact (Hv (@values_deleteKey _ _ _ H)).
  - split; [now apply NoDup_assignKey|].
    intros H. destruct (@values_assignKey _ _ _ _ H); [congruence|tauto].
Qed.

Lemma tidy_applyChanges (changes : list (string * string)) (sel : selection) :
  tidy sel -> tidy (applyChanges changes sel).
Proof.
  unfold applyChanges. revert sel.
  induction changes as [|[c e] changes IH]; intros sel H; simpl; [exact H|].
  apply IH, tidy_change, H.
Qed.

(** X27. The selection holds the last choice of each category.  Starting
    from the empty selection and after any sequence of changes whose
    category names are ordinary property names -- not [__proto__] and
    not written in digits, as the names of [effects.ts] are -- the
    effect stored for a category is the one of the last change made to
    that category, and nothing is stored when that change chose 'None'
    or when no change touched the category; the selection has one
    property per category and never stores 'None' itself. *)
Theorem selection_holds_last_change (changes : list (string * string))
  (categoryName : string) :
  Forall (fun ce => ordinaryKey (fst ce) = true) changes ->
  lookupKey categoryName (applyChanges changes [])
  = match lastChange categoryName changes with
    | Some effect => if String.eqb effect "None" then None else Some effect
    | None => None
    end
  /\ NoDup (map fst (applyChanges changes []))
  /\ ~ In "None" (map snd (applyChanges changes [])).
Proof.
  intros _. split.
  - rewrite lookupKey_applyChanges. reflexivity.
  - apply tidy_applyChanges. split; [constructor|intros []].
Qed.

Lemma selection_holds_last_change_witness :
  lookupKey "Graphic Design"
    (applyChanges [("Graphic Design", "Flyer Design");
                   ("Painting Styles", "Oil Painting");
                   ("Graphic Design", "Thumbnail Design")] [])
  = Some "Thumbnail Design"
  /\ NoDup (map fst
              (applyChanges [("Graphic Design", "Flyer Design");
                             ("Painting Styles", "Oil Painting");
                             ("Graphic Design", "Thumbnail Design")] []))
  /\ ~ In "None"
         (map snd
            (applyChanges [("Graphic Design", "Flyer Design");
                           ("Painting Styles", "Oil Painting");
                           ("Graphic Design", "Thumbnail Design")] [])).
Proof.
  apply (@selection_holds_last_change
           [("Graphic Design", "Flyer Design");
            ("Painting Styles", "Oil Painting");
            ("Graphic Design", "Thumbnail Design")] "Graphic Design").
  repeat constructor.
Defined.

Lemma lookupKey_In (k v : string) (sel : selection) :
  lookupKey k sel = Some v -> In v (map snd sel).
Proof.
  unfold lookupKey.
  induction sel as [|[c v'] sel IH]; simpl; [discriminate|].
  destruct (String.eqb k c); simpl.
  - intros [= <-]. now left.
  - intros H. right. exact (IH H).
Qed.

Lemma lastChange_untouched (k : string) (changes : list (string * string)) :
  Forall (fun ce => fst ce <> k) changes -> lastChange k changes = None.
Proof.
  induction 1 as [|[c e] changes Hc _ IH]; simpl; [reflexivity|].
  rewrite IH. simpl in Hc.
  destruct (String.eqb_spec k c); [congruence|reflexivity].
Qed.

(** X28. Choosing the flyer effect switches the whole request to the
    flyer template.  With ordinary property names as category names --
    not [__proto__] and not written in digits, as the names of
    [effects.ts] are -- once 'Flyer Design' is chosen in a category,
    and whatever is chosen before or afterwards in other categories,
    the style prompt that [handleGenerate] joins from the selection
    makes [generateStudioPhoto] send exactly two parts: the flyer
    instruction and the subject image.  No other image of the request
    (face reference, art reference, outfit, object, background) is
    sent. *)
Theorem flyer_effect_selects_flyer_template
  (before : selection) (categoryName : string)
  (later : list (string * string)) (p : Prompt.GenerateStudioPhotoParams) :
  Forall (fun kv => ordinaryKey (fst kv) = true) before ->
  ordinaryKey categoryName = true ->
  Forall (fun ce => ordinaryKey (fst ce) = true) later ->
  Forall (fun ce => fst ce <> categoryName) later ->
  Prompt.stylePrompt p
  = stylePromptOf
      (applyChanges ((categoryName, "Flyer Design") :: later) before) ->
  Prompt.generateStudioPhoto_parts p
  = [ Prompt.TextPart (Prompt.flyerInstructions p);
      Prompt.fileToGenerativePart (Prompt.sourceImage p) ].
Proof.
  intros _ _ _ Hl Hs.
  assert (Hk : lookupKey categoryName
                 (applyChanges ((categoryName, "Flyer Design") :: later) before)
               = Some "Flyer Design").
  { rewrite lookupKey_applyChanges. simpl.
    rewrite (@lastChange_untouched _ _ Hl), String.eqb_refl. reflexivity. }
  unfold Prompt.generateStudioPhoto_parts, Prompt.isFlyerDesign.
  rewrite Hs. unfold stylePromptOf.
  rewrite (@includes_join " & " _ "Flyer Design" "Flyer Design");
    [reflexivity| |reflexivity].
  apply filter_In. split; [|reflexivity].
  exact (@lookupKey_In _ _ _ Hk).
Qed.

Lemma flyer_effect_selects_flyer_template_witness :
  Prompt.generateStudioPhoto_parts
    (PromptInputs.withStylePrompt "Oil Painting & Flyer Design & Film Noir"
       (Prompt.defaultParams Scenarios.portrait))
  = [ Prompt.TextPart
        (Prompt.flyerInstructions
           (PromptInputs.withStylePrompt
              "Oil Painting & Flyer Design & Film Noir"
              (Prompt.defaultParams Scenarios.portrait)));
      Prompt.fileToGenerativePart Scenarios.portrait ].
Proof.
  apply (@flyer_effect_selects_flyer_template
           [("Painting Styles", "Oil Painting")] "Graphic Design"
           [("Cinematic Styles", "Film Noir")]
           (PromptInputs.withStylePrompt
              "Oil Painting & Flyer Design & Film Noir"
              (Prompt.defaultParams Scenarios.portrait))).
  - repeat constructor.
  - reflexivity.
  - repeat constructor.
  - constructor; [simpl; discriminate|constructor].
  - reflexivity.
Defined.

(** *** Upload *)

Lemma canvasSide_quotient (a b : Z) :
  (0 < b)%Z -> canvasSide (Qdiv (inject_Z a) (inject_Z b)) = (a / b)%Z.
Proof.
  intros Hb. destruct b as [|b|b]; try lia.
  unfold canvasSide, Qdiv, Qinv, Qmult, inject_Z. simpl.
  rewrite Z.mul_1_r. reflexivity.
Qed.

(** X29. An uploaded image is brought within 1024 pixels and never
    enlarged.  For an image of at least one pixel each way,
    [resizeImage] passes it on untouched exactly when both sides are at
    most 1024; otherwise the canvas it draws on has its longer side at
    exactly 1024 and its other side no longer than the original, and a
    side collapses to zero pixels exactly when the image is more than
    1024 times longer one way than the other. *)
Theorem resized_image_fits (width height : Z) :
  (1 <= width)%Z -> (1 <= height)%Z ->
  match resizedSize width height with
  | None => (width <= 1024 /\ height <= 1024)%Z
  | Some (newWidth, newHeight) =>
      (1024 < Z.max width height
       /\ Z.max (canvasSide newWidth) (canvasSide newHeight) = 1024
       /\ 0 <= canvasSide newWidth <= width
       /\ 0 <= canvasSide newHeight <= height)%Z
      /\ ((canvasSide newWidth = 0 \/ canvasSide newHeight = 0)%Z
          <-> (1024 * Z.min width height < Z.max width height)%Z)
  end.
Proof.
  intros Hw Hh. unfold resizedSize, MAX_DIMENSION.
  assert (Hwide : (height < width -> 1024 < width ->
            (1024 < Z.max width height
             /\ Z.max 1024 (height * 1024 / width) = 1024
             /\ 0 <= 1024 <= width
             /\ 0 <= height * 1024 / width <= height)
            /\ ((1024 = 0 \/ height * 1024 / width = 0)
                <-> 1024 * Z.min width height < Z.max width height))%Z).
  { intros Hlt Hbig.
    assert (Hq : (0 <= height * 1024 / width < 1024)%Z)
      by (split; [apply Z.div_pos; lia|apply Z.div_lt_upper_bound; lia]).
    assert (Hle : (height * 1024 / width <= height)%Z)
      by (apply Z.div_le_upper_bound; nia).
    assert (Hz : (height * 1024 / width = 0 <-> height * 1024 < width)%Z)
      by (rewrite Z.div_small_iff by lia; lia).
    split; [lia|]. split; [intros [?|?]; lia|intros ?; right; lia]. }
  assert (Htall : (width <= height -> 1024 < height ->
            (1024 < Z.max width height
             /\ Z.max (width * 1024 / height) 1024 = 1024
             /\ 0 <= width * 1024 / height <= width
             /\ 0 <= 1024 <= height)
            /\ ((width * 1024 / height = 0 \/ 1024 = 0)
                <-> 1024 * Z.min width height < Z.max width height))%Z).
  { intros Hlt Hbig.
    assert (Hq : (0 <= width * 1024 / height <= 1024)%Z)
      by (split; [apply Z.div_pos; lia|apply Z.div_le_upper_bound; nia]).
    assert (Hle : (width * 1024 / height <= width)%Z)
      by (apply Z.div_le_upper_bound; nia).
    assert (Hz : (width * 1024 / height = 0 <-> width * 1024 < height)%Z)
      by (rewrite Z.div_small_iff by lia; lia).
    split; [lia|]. split; [intros [?|?]; lia|intros ?; left; lia]. }
  destruct (Z.leb_spec width 1024); destruct (Z.leb_spec height 1024);
    cbn [andb]; [split; assumption| | |].
  all: destruct (Z.ltb_spec height width).
  all: rewrite canvasSide_quotient by lia.
  all: change (canvasSide (inject_Z 1024)) with 1024%Z.
  all: try (apply Hwide; lia); try (apply Htall; lia).
Qed.

Lemma resized_image_fits_witness :
  match resizedSize 4032 3024 with
  | None => (4032 <= 1024 /\ 3024 <= 1024)%Z
  | Some (newWidth, newHeight) =>
      (1024 < Z.max 4032 3024
       /\ Z.max (canvasSide newWidth) (canvasSide newHeight) = 1024
       /\ 0 <= canvasSide newWidth <= 4032
       /\ 0 <= canvasSide newHeight <= 3024)%Z
      /\ ((canvasSide newWidth = 0 \/ canvasSide newHeight = 0)%Z
          <-> (1024 * Z.min 4032 3024 < Z.max 4032 3024)%Z)
  end.
Proof. apply (@resized_image_fits 4032 3024); lia. Defined.

End AppFacts.
